(** * svelte-headless-table: column resizing and table filtering plugins

    A shallow embedding of [src/lib/plugins/addResizedColumns.ts] (the
    handlers and the attributes of the resizing plugin) and of the table
    filter plugin ([getFilteredRows], [useTableFilter],
    [textPrefixFilter]) that lives in the same source file, followed by
    the properties the specification states about them.

    JavaScript numbers are IEEE-754 binary64 values: they are modelled by
    Rocq's primitive floats. The stores of the resizing plugin are plain
    JavaScript objects: a read [o[id]] that finds no own property goes on
    to [Object.prototype], and the model follows it there. *)

From Stdlib Require Import Floats Lia Ascii String.
From stdpp Require Import gmap strings list.

#[local] Set Warnings "-register-all".

(** ** Numbers *)

Declare Scope js_scope.
Delimit Scope js_scope with js.

(** The operations on numbers that the plugin uses. [num_nan] is what
    [undefined] becomes when it reaches an arithmetic operator. *)
Class JsNumber (num : Type) := {
  num_zero : num;
  num_nan : num;
  num_add : num -> num -> num;
  num_sub : num -> num -> num;
  num_mul : num -> num -> num;
  num_div : num -> num -> num;
  Math_max : num -> num -> num;
}.

Infix "+" := num_add : js_scope.
Infix "-" := num_sub : js_scope.
Infix "*" := num_mul : js_scope.
Infix "/" := num_div : js_scope.

(** [Math.max] of ECMAScript on two doubles: NaN is contagious and
    [+0] is larger than [-0]. *)
Definition float_max (a b : float) : float :=
  if (PrimFloat.is_nan a || PrimFloat.is_nan b)%bool then PrimFloat.nan
  else if PrimFloat.ltb a b then b
  else if PrimFloat.ltb b a then a
  else if PrimFloat.get_sign a then b else a.

(** The program's own arithmetic: IEEE-754 doubles. *)
#[export] Instance float_number : JsNumber float := {|
  num_zero := PrimFloat.zero;
  num_nan := PrimFloat.nan;
  num_add := PrimFloat.add;
  num_sub := PrimFloat.sub;
  num_mul := PrimFloat.mul;
  num_div := PrimFloat.div;
  Math_max := float_max;
|}.

(** ** The resizing plugin *)

Module Resize.

(** A header cell is either flat (one column) or a group over the
    ordered list [ids] of its columns. *)
Inductive HeaderCell : Type :=
  | FlatHeaderCell (id : string)
  | GroupHeaderCell (id : string) (ids : list string).

Definition cell_id (cell : HeaderCell) : string :=
  match cell with
  | FlatHeaderCell id => id
  | GroupHeaderCell id _ => id
  end.

(** The column ids a drag on the header affects. *)
Definition affectedIds (cell : HeaderCell) : list string :=
  match cell with
  | FlatHeaderCell id => [id]
  | GroupHeaderCell _ ids => ids
  end.

(** A reference to a DOM element. *)
Definition Element : Type := nat.

(** The names of the properties of [Object.prototype], which every
    store of the plugin inherits: the stores are object literals.
    [__proto__] is an accessor, the others are functions. *)
Definition Object_prototype : list string :=
  ["constructor"; "hasOwnProperty"; "isPrototypeOf"; "propertyIsEnumerable";
   "toLocaleString"; "toString"; "valueOf"; "__proto__";
   "__defineGetter__"; "__defineSetter__";
   "__lookupGetter__"; "__lookupSetter__"].

Definition inherits (id : string) : bool :=
  bool_decide (id ∈ Object_prototype).

Section Handlers.
Context {num : Type} `{JsNumber num}.

(** What the plugin reads of the page: [node.clientWidth], the width
    at which the browser renders the node at the time of the call. *)
Definition Layout : Type := Element -> num.

Inductive EventKind : Type :=
  | MouseEvent (clientX : num)
  | TouchEvent (targetTouches : list num)   (* the [pageX] of each touch *)
  | OtherEvent.

Record Event : Type := {
  targetIsNull : bool;
  kind : EventKind;
}.

(** [getDragXPos]; [None] is the [TypeError] raised by
    [event.targetTouches[0].pageX] when there is no touch. *)
Definition getDragXPos (event : Event) : option num :=
  match kind event with
  | MouseEvent clientX => Some clientX
  | TouchEvent targetTouches => head targetTouches
  | OtherEvent => Some num_zero
  end.

(** What a read [o[id]] of a store of numbers can give: [undefined], a
    number, or the member of [Object.prototype] of that name. *)
Inductive JsValue : Type :=
  | VUndefined
  | VNumber (n : num)
  | VInherited (member : string).

(** The read [o[id]], where the finite map [o] holds the own properties
    of the object and [value] the JavaScript value of each: an own
    property wins, otherwise the name is looked up in
    [Object.prototype]. *)
Definition getProp {V : Type} (value : V -> JsValue) (o : gmap string V)
    (id : string) : JsValue :=
  match o !! id with
  | Some v => value v
  | None => if inherits id then VInherited id else VUndefined
  end.

(** The assignment [o[id] = v], for a value [v] that is a number,
    [undefined], or what [o[id]] itself read. It sets an own property;
    but when [id] is [__proto__] and [o] has no own property of that
    name, it calls the setter of [Object.prototype], which ignores a
    number and [undefined] and, given the prototype that the object
    already has, changes nothing. (The object literals
    [{ ...o, [id]: v }] of the source define an own property whatever
    the name: they are the map's plain insertion.) *)
Definition setProp {V : Type} (o : gmap string V) (id : string) (v : V)
  : gmap string V :=
  match o !! id with
  | Some _ => <[id := v]> o
  | None => if String.eqb id "__proto__" then o else <[id := v]> o
  end.

(** [current] holds numbers and, where [dragEnd] read the width of
    something that is no element, [undefined] ([None]); [start] holds
    whatever [dragStart] read from [current]. *)
Record ColumnsWidthState : Type := {
  current : gmap string (option num);
  start : gmap string JsValue;
}.

Definition widthValue (w : option num) : JsValue :=
  match w with
  | Some n => VNumber n
  | None => VUndefined
  end.

(** [$columnsWidthState.current[id]] and [$columnsWidthState.start[id]] *)
Definition currentWidth (s : ColumnsWidthState) (id : string) : JsValue :=
  getProp widthValue (current s) id.

Definition startWidth (s : ColumnsWidthState) (id : string) : JsValue :=
  getProp (fun v => v) (start s) id.

(** The closure state of one plugin instance. *)
Record PluginState : Type := {
  columnsWidthState : ColumnsWidthState;
  dragStartXPosForId : gmap string num;
  nodeForId : gmap string Element;
}.

Definition initialState : PluginState :=
  {| columnsWidthState := {| current := ∅; start := ∅ |};
     dragStartXPosForId := ∅;
     nodeForId := ∅ |}.

(** [dragStartXPosForId[id]] *)
Definition dragStartXPos (p : PluginState) (id : string) : JsValue :=
  getProp VNumber (dragStartXPosForId p) id.

(** What [nodeForId[id]] reads: nothing, an element, or a member of
    [Object.prototype]. *)
Inductive NodeRead : Type :=
  | NoNode
  | NodeElement (node : Element)
  | NodeInherited (member : string).

Definition nodeFor (p : PluginState) (id : string) : NodeRead :=
  match nodeForId p !! id with
  | Some node => NodeElement node
  | None => if inherits id then NodeInherited id else NoNode
  end.

(** The number that an operand becomes under [-], [*] and [/]:
    [undefined] and the members of [Object.prototype] become NaN. *)
Definition toNumber (v : JsValue) : num :=
  match v with
  | VNumber n => n
  | VUndefined | VInherited _ => num_nan
  end.

Definition isInherited (v : JsValue) : bool :=
  match v with
  | VInherited _ => true
  | VUndefined | VNumber _ => false
  end.

(** Modelled from the spec: [sum] of [$lib/utils/math] is not among the
    sources; the specification writes it as the sum of the start widths
    ([totalStart = Σ start[ij]]), here a left-to-right reduction by [+]
    from zero. Its result is only ever a divisor. [undefined] makes the
    sum NaN; a member of [Object.prototype] makes [+] build a string
    that is no numeral, which the division converts to NaN. *)
Definition sum (nums : list JsValue) : num :=
  if existsb isInherited nums then num_nan
  else fold_left (fun a b => (a + toNumber b)%js) nums num_zero.

(** The updater that [dragStart] passes to [columnsWidthState.update]. *)
Definition dragStartUpdate (cell : HeaderCell) (s : ColumnsWidthState)
  : ColumnsWidthState :=
  match cell with
  | GroupHeaderCell _ ids =>
      {| current := current s;
         start := fold_left (fun st id => setProp st id (currentWidth s id))
                            ids (start s) |}
  | FlatHeaderCell id =>
      {| current := current s;
         start := setProp (start s) id (currentWidth s id) |}
  end.

Definition dragStart (cell : HeaderCell) (event : Event) (p : PluginState)
  : PluginState :=
  if targetIsNull event then p
  else match getDragXPos event with
       | None => p
       | Some x =>
           {| columnsWidthState := dragStartUpdate cell (columnsWidthState p);
              dragStartXPosForId := setProp (dragStartXPosForId p) (cell_id cell) x;
              nodeForId := nodeForId p |}
       end.

(** [startWidth + deltaWidth * (startWidth / totalStartWidth)], the
    width of a group member before the floor at zero. *)
Definition proportionalWidth (startWidth deltaWidth totalStartWidth : num) : num :=
  (startWidth + deltaWidth * (startWidth / totalStartWidth))%js.

(** One iteration of [cell.ids.forEach] in [dragMove]. A start width
    that is a member of [Object.prototype] is not [undefined]: the [+]
    of the source then builds a string that is no numeral, and
    [Math.max] returns NaN. *)
Definition groupMoveStep (s : ColumnsWidthState) (deltaWidth totalStartWidth : num)
    (cur : gmap string (option num)) (id : string) : gmap string (option num) :=
  match startWidth s id with
  | VUndefined => cur
  | VNumber w =>
      setProp cur id
        (Some (Math_max num_zero (proportionalWidth w deltaWidth totalStartWidth)))
  | VInherited _ => setProp cur id (Some num_nan)
  end.

(** The updater that [dragMove] passes to [columnsWidthState.update]. *)
Definition dragMoveUpdate (cell : HeaderCell) (deltaWidth : num)
    (s : ColumnsWidthState) : ColumnsWidthState :=
  match cell with
  | GroupHeaderCell _ ids =>
      let totalStartWidth := sum (map (startWidth s) ids) in
      {| current := fold_left (groupMoveStep s deltaWidth totalStartWidth)
                              ids (current s);
         start := start s |}
  | FlatHeaderCell id =>
      {| current :=
           match startWidth s id with
           | VUndefined => current s
           | VNumber w =>
               setProp (current s) id (Some (Math_max num_zero (w + deltaWidth)%js))
           | VInherited _ => setProp (current s) id (Some num_nan)
           end;
         start := start s |}
  end.

Definition dragMove (cell : HeaderCell) (event : Event) (p : PluginState)
  : PluginState :=
  match getDragXPos event with
  | None => p
  | Some x =>
      let deltaWidth := (x - toNumber (dragStartXPos p (cell_id cell)))%js in
      {| columnsWidthState := dragMoveUpdate cell deltaWidth (columnsWidthState p);
         dragStartXPosForId := dragStartXPosForId p;
         nodeForId := nodeForId p |}
  end.

(** [columnWidths.update(f)]: [columnWidths] is the store keyed on the
    [current] field. *)
Definition columnWidths_update
    (f : gmap string (option num) -> gmap string (option num))
    (p : PluginState) : PluginState :=
  {| columnsWidthState :=
       {| current := f (current (columnsWidthState p));
          start := start (columnsWidthState p) |};
     dragStartXPosForId := dragStartXPosForId p;
     nodeForId := nodeForId p |}.

(** The body run by [dragEnd] for one affected id. What [nodeForId[id]]
    inherits from [Object.prototype] is not [undefined] either, and its
    [clientWidth] is [undefined]. *)
Definition resyncId (clientWidth : Layout) (p : PluginState) (id : string)
  : PluginState :=
  match nodeFor p id with
  | NoNode => p
  | NodeElement node =>
      columnWidths_update (fun w => <[id := Some (clientWidth node)]> w) p
  | NodeInherited _ => columnWidths_update (fun w => <[id := None]> w) p
  end.

Definition dragEnd (cell : HeaderCell) (event : Event) (clientWidth : Layout)
    (p : PluginState) : PluginState :=
  match cell with
  | GroupHeaderCell _ ids => fold_left (resyncId clientWidth) ids p
  | FlatHeaderCell id => resyncId clientWidth p id
  end.

(** The action run when the header cell's node is mounted, and the
    [destroy] callback it returns. The source seeds the width of a cell
    that is an instance of [FlatHeaderCell] and of no other. The result
    is [None] in the one case that is left out: for the id [__proto__]
    the assignment [nodeForId[cell.id] = node] makes the node the
    prototype of [nodeForId], and every later read of [nodeForId] would
    depend on the properties of that DOM node. *)
Definition action (cell : HeaderCell) (node : Element) (clientWidth : Layout)
    (p : PluginState) : option PluginState :=
  if bool_decide (cell_id cell = "__proto__"
                  ∧ nodeForId p !! cell_id cell = None) then None
  else
    let p' :=
      {| columnsWidthState := columnsWidthState p;
         dragStartXPosForId := dragStartXPosForId p;
         nodeForId := <[cell_id cell := node]> (nodeForId p) |} in
    Some match cell with
         | FlatHeaderCell id =>
             columnWidths_update (fun w => <[id := Some (clientWidth node)]> w) p'
         | GroupHeaderCell _ _ => p'
         end.

Definition destroy (cell : HeaderCell) (p : PluginState) : PluginState :=
  {| columnsWidthState := columnsWidthState p;
     dragStartXPosForId := dragStartXPosForId p;
     nodeForId := delete (cell_id cell) (nodeForId p) |}.

(** The [style] object of the attributes. *)
Record Style : Type := {
  width : string;
  min_width : string;
  max_width : string;
  box_sizing : string;
}.

Definition styleOfWidth (widthPx : string) : Style :=
  {| width := widthPx; min_width := widthPx; max_width := widthPx;
     box_sizing := "border-box" |}.

(** The value of the [attrs] store derived from [columnWidths]: [None]
    is the empty object, [Some style] is [{ style }]. [numberToString]
    and [inheritedToString] are the conversions to a string that the
    template literal [`${width}px`] applies to a number and to the
    member of [Object.prototype] of a given name. *)
Definition attrs (numberToString : num -> string)
    (inheritedToString : string -> string) (cell : HeaderCell)
    (p : PluginState) : option Style :=
  match currentWidth (columnsWidthState p) (cell_id cell) with
  | VUndefined => None
  | VNumber w => Some (styleOfWidth (numberToString w +:+ "px"))
  | VInherited member => Some (styleOfWidth (inheritedToString member +:+ "px"))
  end.

(** *** Vocabulary of the properties

    Not used by the code above. *)

(** The width that a drag-move assigns to [current[id]], if it assigns
    one: nothing for a start width that is [undefined], the floor at
    zero of [newWidth] for a start width that is a number, NaN for one
    that is a member of [Object.prototype]. *)
Definition assignedWidth (s : ColumnsWidthState) (newWidth : num -> num)
    (id : string) : option num :=
  match startWidth s id with
  | VUndefined => None
  | VNumber w => Some (Math_max num_zero (newWidth w))
  | VInherited _ => Some num_nan
  end.

(** The same for a drag-move of [cell] with delta [deltaWidth]. *)
Definition movedWidth (cell : HeaderCell) (deltaWidth : num)
    (s : ColumnsWidthState) (id : string) : option num :=
  assignedWidth s
    match cell with
    | FlatHeaderCell _ => fun w => (w + deltaWidth)%js
    | GroupHeaderCell _ ids =>
        fun w => proportionalWidth w deltaWidth (sum (map (startWidth s) ids))
    end
    id.

End Handlers.

Arguments Layout : clear implicits.
Arguments Style : clear implicits.
Arguments Event : clear implicits.
Arguments EventKind : clear implicits.
Arguments JsValue : clear implicits.
Arguments NodeRead : clear implicits.
Arguments ColumnsWidthState : clear implicits.
Arguments PluginState : clear implicits.

End Resize.

(** ** The table filter plugin *)

Module Filter.

(** [String.prototype.startsWith] *)
Fixpoint startsWith (s searchString : string) : bool :=
  match searchString, s with
  | EmptyString, _ => true
  | String _ _, EmptyString => false
  | String p prest, String c rest =>
      if Ascii.eqb c p then startsWith rest prest else false
  end.

(** [TableFilterFn], applied to [{ filterValue, value }]. *)
Definition TableFilterFn : Type := string -> string -> bool.

(** [textPrefixFilter]. [toLowerCase] stands for the platform's
    [String.prototype.toLowerCase], which the plugin does not define. *)
Definition textPrefixFilter (toLowerCase : string -> string) : TableFilterFn :=
  fun filterValue value =>
    if String.eqb filterValue "" then true
    else startsWith (toLowerCase value) (toLowerCase filterValue).

Section Rows.
(** The values held by data cells, with JavaScript's [String(value)]. *)
Context {Value : Type} (toString : Value -> string).

(** A body cell: a [DataBodyCell] carries a value, any other body cell
    does not. [rowColId] is the string that the method [cell.rowColId()]
    returns. *)
Inductive BodyCell : Type :=
  | DataBodyCell (id rowColId : string) (value : Value)
  | DisplayBodyCell (id rowColId : string).

Definition cellId (cell : BodyCell) : string :=
  match cell with
  | DataBodyCell id _ _ => id
  | DisplayBodyCell id _ => id
  end.

Definition rowColId (cell : BodyCell) : string :=
  match cell with
  | DataBodyCell _ k _ => k
  | DisplayBodyCell _ k => k
  end.

(** A body row. [cellForId] lists the entries of the record in the
    order in which [Object.values] enumerates them; [subRows] is [None]
    when the field is [undefined]. *)
Inductive BodyRow : Type :=
  | mkBodyRow (id : string)
              (cellForId : list (string * BodyCell))
              (cells : list BodyCell)
              (subRows : option (list BodyRow)).

Definition rowId (row : BodyRow) : string :=
  match row with mkBodyRow id _ _ _ => id end.
Definition cellForId (row : BodyRow) : list (string * BodyCell) :=
  match row with mkBodyRow _ c _ _ => c end.
Definition cells (row : BodyRow) : list BodyCell :=
  match row with mkBodyRow _ _ c _ => c end.
Definition subRows (row : BodyRow) : option (list BodyRow) :=
  match row with mkBodyRow _ _ _ s => s end.

Definition Object_values (record : list (string * BodyCell)) : list BodyCell :=
  map snd record.

(** [getCloned(row, { subRows })]: a copy of the row with the one field
    replaced. *)
Definition getCloned (row : BodyRow) (newSubRows : list BodyRow) : BodyRow :=
  mkBodyRow (rowId row) (cellForId row) (cells row) (Some newSubRows).

Record TableFilterColumnOptions : Type := {
  exclude : option bool;
  getFilterValue : option (Value -> string);
}.

(** The arguments that stay fixed through one call of
    [getFilteredRows]. *)
Context (filterValue : string)
        (columnOptions : gmap string TableFilterColumnOptions)
        (fn : TableFilterFn)
        (includeHiddenColumns : bool).

(** [options?.exclude === true] *)
Definition isExcluded (cell : BodyCell) : bool :=
  match columnOptions !! cellId cell with
  | Some options =>
      match exclude options with Some true => true | _ => false end
  | None => false
  end.

(** [row.cells.find((c) => c.id === cell.id) === undefined] *)
Definition isHidden (row : BodyRow) (cell : BodyCell) : bool :=
  match find (fun c => String.eqb (cellId c) (cellId cell)) (cells row) with
  | Some _ => false
  | None => true
  end.

(** The string handed to [fn] for a data cell's value. A
    [getFilterValue] of the column options returns a string, which
    [String] leaves as it is. *)
Definition filterText (cell : BodyCell) (value : Value) : string :=
  match columnOptions !! cellId cell with
  | Some {| getFilterValue := Some get |} => get value
  | _ => toString value
  end.

(** The callback mapped over [Object.values(row.cellForId)]: the
    cell's outcome and the store [tableCellMatches] after it. *)
Definition cellMatch (row : BodyRow) (cell : BodyCell)
    (tableCellMatches : gmap string bool) : bool * gmap string bool :=
  if isExcluded cell then (false, tableCellMatches)
  else if isHidden row cell && negb includeHiddenColumns
  then (false, tableCellMatches)
  else match cell with
       | DisplayBodyCell _ _ => (false, tableCellMatches)
       | DataBodyCell _ _ value =>
           let matches := fn filterValue (filterText cell value) in
           (matches, <[rowColId cell := matches]> tableCellMatches)
       end.

(** [Object.values(row.cellForId).map(...)], threading the store. *)
Fixpoint rowCellMatches (row : BodyRow) (cs : list BodyCell)
    (tableCellMatches : gmap string bool) : list bool * gmap string bool :=
  match cs with
  | [] => ([], tableCellMatches)
  | cell :: rest =>
      let '(b, m1) := cellMatch row cell tableCellMatches in
      let '(bs, m2) := rowCellMatches row rest m1 in
      (b :: bs, m2)
  end.

(** [rowCellMatches.includes(true)] *)
Definition includes_true (bs : list bool) : bool := existsb (fun b => b) bs.

(** The callback of [.filter]: whether the row is kept. *)
Definition keepRow (row : BodyRow) (tableCellMatches : gmap string bool)
  : bool * gmap string bool :=
  if negb (Nat.eqb (length (default [] (subRows row))) 0)
  then (true, tableCellMatches)
  else
    let '(bs, m) :=
      rowCellMatches row (Object_values (cellForId row)) tableCellMatches in
    (includes_true bs, m).

(** [.filter(...)] over the mapped rows. *)
Fixpoint filterRows (rows : list BodyRow) (tableCellMatches : gmap string bool)
  : list BodyRow * gmap string bool :=
  match rows with
  | [] => ([], tableCellMatches)
  | row :: rest =>
      let '(keep, m1) := keepRow row tableCellMatches in
      let '(kept, m2) := filterRows rest m1 in
      (if keep then row :: kept else kept, m2)
  end.

(** The callback of [.map]: a row with sub-rows is replaced by a clone
    whose sub-rows are the filtered ones. The inner [mapRows] is
    [.map] itself, so that the recursive call on [subRows] is
    [getFilteredRows] written out: map every row, then filter. *)
Fixpoint mapRow (row : BodyRow) (tableCellMatches : gmap string bool)
  : BodyRow * gmap string bool :=
  match subRows row with
  | None => (row, tableCellMatches)
  | Some subs =>
      let '(mapped, m1) :=
        (fix mapRows (rows : list BodyRow) (m : gmap string bool) :=
           match rows with
           | [] => ([], m)
           | r :: rest =>
               let '(r', ma) := mapRow r m in
               let '(rest', mb) := mapRows rest ma in
               (r' :: rest', mb)
           end) subs tableCellMatches in
      let '(filteredSubRows, m2) := filterRows mapped m1 in
      (getCloned row filteredSubRows, m2)
  end.

Fixpoint mapRows (rows : list BodyRow) (tableCellMatches : gmap string bool)
  : list BodyRow * gmap string bool :=
  match rows with
  | [] => ([], tableCellMatches)
  | r :: rest =>
      let '(r', ma) := mapRow r tableCellMatches in
      let '(rest', mb) := mapRows rest ma in
      (r' :: rest', mb)
  end.

Definition getFilteredRows (rows : list BodyRow)
    (tableCellMatches : gmap string bool) : list BodyRow * gmap string bool :=
  let '(mapped, m1) := mapRows rows tableCellMatches in
  filterRows mapped m1.

(** *** Vocabulary of the specification

    Executable readings of the words the specification uses about rows
    and cells; none of them is used by the code above. *)

Definition isDataBodyCell (cell : BodyCell) : bool :=
  match cell with
  | DataBodyCell _ _ _ => true
  | DisplayBodyCell _ _ => false
  end.

(** An evaluable cell: not excluded by the column options, visible or
    allowed by [includeHiddenColumns], and value-bearing. *)
Definition evaluable (row : BodyRow) (cell : BodyCell) : bool :=
  negb (isExcluded cell)
  && (negb (isHidden row cell) || includeHiddenColumns)
  && isDataBodyCell cell.

(** The predicate's verdict on the cell's text. *)
Definition predicateAccepts (cell : BodyCell) : bool :=
  match cell with
  | DataBodyCell _ _ value => fn filterValue (filterText cell value)
  | DisplayBodyCell _ _ => false
  end.

(** A cell matches when it is evaluable and the predicate accepts it;
    a row matches when one of its own cells does. *)
Definition cellMatches (row : BodyRow) (cell : BodyCell) : bool :=
  evaluable row cell && predicateAccepts cell.

Definition rowMatches (row : BodyRow) : bool :=
  existsb (cellMatches row) (Object_values (cellForId row)).

(** The rows strictly below a row, and all the rows of a row list, at
    any depth. *)
Fixpoint descendants (row : BodyRow) : list BodyRow :=
  match subRows row with
  | None => []
  | Some subs => flat_map (fun r => r :: descendants r) subs
  end.

Definition allRows (rows : list BodyRow) : list BodyRow :=
  flat_map (fun r => r :: descendants r) rows.

(** The rule of the [.filter] callback, without the store: a row that
    has sub-rows is kept, any other row is kept when it matches. *)
Definition keeps (row : BodyRow) : bool :=
  match default [] (subRows row) with
  | [] => rowMatches row
  | _ :: _ => true
  end.

(** The row that [.map] puts in the place of [row]. *)
Definition mapped (row : BodyRow) : BodyRow := fst (mapRow row ∅).

(** The sub-rows of a row after the recursive filter; a row without
    the field has none. *)
Definition remainingSubRows (row : BodyRow) : list BodyRow :=
  fst (getFilteredRows (default [] (subRows row)) ∅).

End Rows.

Arguments BodyCell : clear implicits.
Arguments BodyRow : clear implicits.
Arguments TableFilterColumnOptions : clear implicits.

(** *** [useTableFilter] *)

Section Plugin.
Context {Value : Type} (toString : Value -> string).

Record TableFilterConfig : Type := {
  config_fn : option TableFilterFn;
  initialFilterValue : option string;
  config_includeHiddenColumns : option bool;
}.

(** The stores created by one plugin instance. *)
Record PluginState : Type := {
  filterValue : string;
  preFilteredRows : list (BodyRow Value);
  filteredRows : list (BodyRow Value);
  tableCellMatches : gmap string bool;
}.

Context (toLowerCase : string -> string)
        (config : TableFilterConfig)
        (columnOptions : gmap string (TableFilterColumnOptions Value)).

(** The destructuring defaults of the configuration. *)
Definition fn : TableFilterFn :=
  default (textPrefixFilter toLowerCase) (config_fn config).
Definition includeHiddenColumns : bool :=
  default false (config_includeHiddenColumns config).

Definition initialState : PluginState :=
  {| filterValue := default "" (initialFilterValue config);
     preFilteredRows := [];
     filteredRows := [];
     tableCellMatches := ∅ |}.

(** The callback of the store derived from [rows] and [filterValue]:
    the rows it returns and the stores after it. *)
Definition deriveRows (rows : list (BodyRow Value)) (p : PluginState)
  : list (BodyRow Value) * PluginState :=
  let '(_filteredRows, m) :=
    getFilteredRows toString (filterValue p) columnOptions fn
                    includeHiddenColumns rows ∅ in
  (_filteredRows,
   {| filterValue := filterValue p;
      preFilteredRows := rows;
      filteredRows := _filteredRows;
      tableCellMatches := m |}).

(** The [matches] prop of the hook for the body cells. *)
Definition matches (p : PluginState) (cell : BodyCell Value) : bool :=
  negb (String.eqb (filterValue p) "")
  && default false (tableCellMatches p !! rowColId cell).

End Plugin.
End Filter.

(** ** Sample tables

    Rows of a table of persons with two data columns: [name], which is
    displayed, and [nick], which is hidden (it is in [cellForId] and not
    in [cells]). Values are strings; the composite key of a cell is the
    row id, a colon, and the column id. *)

Module Samples.
Import Filter.

Definition dataCell (rowId columnId value : string) : BodyCell string :=
  DataBodyCell columnId (rowId +:+ ":" +:+ columnId) value.

Definition personRow (id name nick : string)
    (subRows : option (list (BodyRow string))) : BodyRow string :=
  mkBodyRow id
    [("name", dataCell id "name" name); ("nick", dataCell id "nick" nick)]
    [dataCell id "name" name]
    subRows.

Definition noColumnOptions : gmap string (TableFilterColumnOptions string) := ∅.

(** The column options [{ name: { exclude: true } }]. *)
Definition excludeName : gmap string (TableFilterColumnOptions string) :=
  {[ "name" := {| exclude := Some true; getFilterValue := None |} ]}.

(** [useTableFilter()], [useTableFilter({ initialFilterValue })] and
    [useTableFilter({ initialFilterValue, includeHiddenColumns: true })]. *)
Definition defaultConfig : TableFilterConfig :=
  {| config_fn := None; initialFilterValue := None;
     config_includeHiddenColumns := None |}.

Definition configWithFilter (value : string) : TableFilterConfig :=
  {| config_fn := None; initialFilterValue := Some value;
     config_includeHiddenColumns := None |}.

Definition configWithHidden (value : string) : TableFilterConfig :=
  {| config_fn := None; initialFilterValue := Some value;
     config_includeHiddenColumns := Some true |}.

(** A lower-casing for the sample tables, whose text is made of ASCII
    characters: on such text it is [String.prototype.toLowerCase]. *)
Definition asciiLower (c : ascii) : ascii :=
  let n := nat_of_ascii c in
  if ((65 <=? n) && (n <=? 90))%nat then ascii_of_nat (n + 32) else c.

Fixpoint asciiToLowerCase (s : string) : string :=
  match s with
  | EmptyString => EmptyString
  | String c rest => String (asciiLower c) (asciiToLowerCase rest)
  end.

(** One recomputation of the derived rows, from the initial stores. *)
Definition recompute (config : TableFilterConfig)
    (columnOptions : gmap string (TableFilterColumnOptions string))
    (rows : list (BodyRow string))
  : list (BodyRow string) * PluginState (Value := string) :=
  deriveRows (fun value => value) asciiToLowerCase config columnOptions rows
             (initialState config).

End Samples.

(** ** Properties of the resizing plugin *)

Section ResizeProps.
Import Resize.
Context {num : Type} `{JsNumber num}.
Implicit Types (s : ColumnsWidthState num) (p : PluginState num).
Implicit Types (ids : list string) (cur : gmap string (option num)).
Implicit Types (clientWidth : Layout num) (event : Event num).

(** *** Reads and assignments *)

Lemma setProp_lookup {V : Type} (o : gmap string V) id v j :
  setProp o id v !! j =
  if decide (id = j) then
    match o !! id with
    | Some _ => Some v
    | None => if String.eqb id "__proto__" then None else Some v
    end
  else o !! j.
Proof.
  unfold setProp. destruct (o !! id) eqn:Ho.
  - rewrite lookup_insert. by destruct (decide (id = j)).
  - destruct (String.eqb id "__proto__").
    + destruct (decide (id = j)) as [<-|]; done.
    + rewrite lookup_insert. by destruct (decide (id = j)).
Qed.

Lemma setProp_lookup_ne {V : Type} (o : gmap string V) id v j :
  id ≠ j → setProp o id v !! j = o !! j.
Proof. intros Hne. rewrite setProp_lookup. by rewrite decide_False. Qed.

(** An assignment takes effect unless it is one to [__proto__] on an
    object without an own property of that name. *)
Lemma setProp_lookup_eq {V : Type} (o : gmap string V) id v :
  id ≠ "__proto__" ∨ is_Some (o !! id) → setProp o id v !! id = Some v.
Proof.
  intros Hok. rewrite setProp_lookup, decide_True by done.
  destruct (o !! id) as [v0|]; [done|].
  destruct (String.eqb_spec id "__proto__") as [->|]; [|done].
  destruct Hok as [?|[? ?]]; done.
Qed.

Lemma setProp_lookup_congr {V : Type} (o o' : gmap string V) id v :
  o !! id = o' !! id → setProp o id v !! id = setProp o' id v !! id.
Proof. intros Heq. rewrite !setProp_lookup, !decide_True by done. by rewrite Heq. Qed.

Lemma setProp_twice {V : Type} (o : gmap string V) id v v' :
  setProp (setProp o id v) id v' !! id = setProp o id v' !! id.
Proof.
  rewrite (setProp_lookup (setProp o id v)), decide_True by done.
  rewrite !setProp_lookup, !decide_True by done.
  destruct (o !! id); [done|]. by destruct (String.eqb id "__proto__").
Qed.

Lemma getProp_ext {V : Type} (value : V → JsValue num) (o o' : gmap string V) id :
  o !! id = o' !! id → getProp value o id = getProp value o' id.
Proof. unfold getProp. by intros ->. Qed.

Lemma getProp_own {V : Type} (value : V → JsValue num) (o : gmap string V) id v :
  o !! id = Some v → getProp value o id = value v.
Proof. unfold getProp. by intros ->. Qed.


(** *** [dragMove] *)

Lemma groupMoveStep_assigned s d total cur id :
  groupMoveStep s d total cur id =
  match assignedWidth s (fun w => proportionalWidth w d total) id with
  | Some v => setProp cur id (Some v)
  | None => cur
  end.
Proof. unfold groupMoveStep, assignedWidth. by destruct (startWidth s id). Qed.

(** What the [forEach] of a group drag-move leaves at [j]. *)
Lemma groupMove_fold_lookup s d total ids cur j :
  fold_left (groupMoveStep s d total) ids cur !! j =
  if decide (j ∈ ids) then
    match assignedWidth s (fun w => proportionalWidth w d total) j with
    | Some v => setProp cur j (Some v) !! j
    | None => cur !! j
    end
  else cur !! j.
Proof.
  revert cur. induction ids as [|i ids IH]; intros cur; cbn [fold_left].
  - rewrite decide_False; [done|apply not_elem_of_nil].
  - rewrite IH, groupMoveStep_assigned.
    destruct (decide (j = i)) as [->|Hne].
    + rewrite (decide_True (P := i ∈ i :: ids)) by apply list_elem_of_here.
      destruct (assignedWidth s _ i) as [v|]; [|by destruct (decide _)].
      destruct (decide (i ∈ ids)); [apply setProp_twice|done].
    + assert (∀ o : gmap string (option num),
                match assignedWidth s (fun w => proportionalWidth w d total) i with
                | Some v => setProp o i (Some v)
                | None => o
                end !! j = o !! j) as Hstep.
      { intros o. destruct (assignedWidth s _ i); [|done].
        by apply setProp_lookup_ne. }
      destruct (decide (j ∈ ids)) as [Hin|Hnin].
      * rewrite (decide_True (P := j ∈ i :: ids)) by by apply list_elem_of_further.
        destruct (assignedWidth s _ j) as [v|]; [|apply Hstep].
        apply setProp_lookup_congr, Hstep.
      * rewrite (decide_False (P := j ∈ i :: ids)) by (rewrite elem_of_cons; tauto).
        apply Hstep.
Qed.

(** [dragMove] never touches the start widths. *)
Lemma dragMoveUpdate_start cell d s :
  start (dragMoveUpdate cell d s) = start s.
Proof. by destruct cell. Qed.

(** The own property that [dragMove] leaves at any column. *)
Lemma dragMoveUpdate_lookup cell d s j :
  current (dragMoveUpdate cell d s) !! j =
  if decide (j ∈ affectedIds cell) then
    match movedWidth cell d s j with
    | Some v => setProp (current s) j (Some v) !! j
    | None => current s !! j
    end
  else current s !! j.
Proof.
  destruct cell as [i|g ids]; cbn [dragMoveUpdate current affectedIds].
  - unfold movedWidth, assignedWidth. destruct (decide (j = i)) as [->|Hne].
    + rewrite decide_True by apply list_elem_of_here.
      by destruct (startWidth s i).
    + rewrite decide_False by by intros ->%list_elem_of_singleton.
      destruct (startWidth s i); [done|by apply setProp_lookup_ne..].
  - apply groupMove_fold_lookup.
Qed.


(** The updater of a drag-move is the identity on a state in which
    every start width of the header reads [undefined]. *)
Lemma dragMoveUpdate_undefined_start cell d s :
  (∀ id, id ∈ affectedIds cell → startWidth s id = VUndefined) →
  dragMoveUpdate cell d s = s.
Proof.
  intros Hnone.
  assert (current (dragMoveUpdate cell d s) = current s) as Hcur.
  { apply map_eq. intros j. rewrite dragMoveUpdate_lookup.
    destruct (decide (j ∈ affectedIds cell)) as [Hin|]; [|done].
    unfold movedWidth, assignedWidth. by rewrite (Hnone j Hin). }
  pose proof (dragMoveUpdate_start cell d s) as Hst.
  destruct (dragMoveUpdate cell d s), s; simpl in *. by subst.
Qed.

(** X2. A drag-move on a header all of whose columns have a start
    width that reads [undefined] changes nothing. *)
Theorem dragMove_without_start cell event p :
  (∀ id, id ∈ affectedIds cell →
         startWidth (columnsWidthState p) id = VUndefined) →
  dragMove cell event p = p.
Proof.
  intros Hnone. unfold dragMove. destruct (getDragXPos event) as [x|]; [|done].
  rewrite (dragMoveUpdate_undefined_start cell _ _ Hnone). by destruct p.
Qed.

Lemma movedWidth_start cell d d' s s' id :
  start s' = start s →
  is_Some (movedWidth cell d' s' id) ↔ is_Some (movedWidth cell d s id).
Proof.
  intros Hst. unfold movedWidth, assignedWidth, startWidth. rewrite Hst.
  destruct (getProp _ (start s) id); split; intros [? ?]; done.
Qed.

(** X3. Drag-moves do not accumulate: each one is computed from the
    widths at drag-start, so a move to one position followed by a move
    to another leaves what the second move alone leaves. *)
Theorem dragMove_last_wins cell d1 d2 s :
  dragMoveUpdate cell d2 (dragMoveUpdate cell d1 s) = dragMoveUpdate cell d2 s.
Proof.
  set (s1 := dragMoveUpdate cell d1 s).
  assert (start s1 = start s) as Hst1 by apply dragMoveUpdate_start.
  assert (∀ j, movedWidth cell d2 s1 j = movedWidth cell d2 s j) as Hmoved.
  { intros j. unfold movedWidth, assignedWidth, startWidth. rewrite Hst1.
    by destruct cell. }
  assert (current (dragMoveUpdate cell d2 s1) = current (dragMoveUpdate cell d2 s))
    as Hcur.
  { apply map_eq. intros j. rewrite !dragMoveUpdate_lookup, Hmoved.
    destruct (decide (j ∈ affectedIds cell)) as [Hin|Hnin].
    - destruct (movedWidth cell d2 s j) as [v|] eqn:Hv.
      + unfold s1. rewrite !setProp_lookup, !decide_True by done.
        rewrite dragMoveUpdate_lookup, decide_True by done.
        destruct (movedWidth cell d1 s j) as [v1|] eqn:Hv1; [|done].
        rewrite setProp_lookup, decide_True by done.
        destruct (current s !! j); [done|].
        by destruct (String.eqb j "__proto__").
      + unfold s1. rewrite dragMoveUpdate_lookup, decide_True by done.
        destruct (movedWidth cell d1 s j) as [v1|] eqn:Hv1; [|done].
        assert (is_Some (movedWidth cell d2 s j)) as [? Hsome]; [|congruence].
        apply (movedWidth_start cell d1 d2 s s j eq_refl). by eexists.
    - unfold s1. rewrite dragMoveUpdate_lookup. by rewrite decide_False. }
  pose proof (dragMoveUpdate_start cell d2 s1) as Hst.
  pose proof (dragMoveUpdate_start cell d2 s) as Hst'.
  destruct (dragMoveUpdate cell d2 s1), (dragMoveUpdate cell d2 s); simpl in *.
  congruence.
Qed.

(** A drag-move writes no width outside the dragged header. *)
Lemma dragMove_current_outside cell event p id :
  id ∉ affectedIds cell →
  current (columnsWidthState (dragMove cell event p)) !! id
  = current (columnsWidthState p) !! id.
Proof.
  intros Hid. unfold dragMove. destruct (getDragXPos event) as [x|]; [|done].
  cbn [columnsWidthState]. rewrite dragMoveUpdate_lookup. by rewrite decide_False.
Qed.

Lemma dragMove_fields cell event p :
  start (columnsWidthState (dragMove cell event p)) = start (columnsWidthState p)
  ∧ dragStartXPosForId (dragMove cell event p) = dragStartXPosForId p
  ∧ nodeForId (dragMove cell event p) = nodeForId p.
Proof.
  unfold dragMove. destruct (getDragXPos event) as [x|]; [|done].
  cbn [columnsWidthState dragStartXPosForId nodeForId].
  by rewrite dragMoveUpdate_start.
Qed.

(** X4. A drag-move changes the width of no column outside the dragged
    header, and changes neither the start widths, nor the recorded
    pointer positions, nor the mounted nodes. *)
Theorem dragMove_frame cell event p :
  let p' := dragMove cell event p in
  (∀ id, id ∉ affectedIds cell →
         current (columnsWidthState p') !! id = current (columnsWidthState p) !! id)
  ∧ start (columnsWidthState p') = start (columnsWidthState p)
  ∧ dragStartXPosForId p' = dragStartXPosForId p
  ∧ nodeForId p' = nodeForId p.
Proof.
  intros p'. split; [|apply dragMove_fields].
  intros id Hid. by apply dragMove_current_outside.
Qed.

(** *** [dragEnd] *)

Lemma resyncId_fields clientWidth p i :
  start (columnsWidthState (resyncId clientWidth p i)) = start (columnsWidthState p)
  ∧ dragStartXPosForId (resyncId clientWidth p i) = dragStartXPosForId p
  ∧ nodeForId (resyncId clientWidth p i) = nodeForId p.
Proof. unfold resyncId. by destruct (nodeFor p i). Qed.

Lemma nodeFor_ext p p' id : nodeForId p' = nodeForId p → nodeFor p' id = nodeFor p id.
Proof. unfold nodeFor. by intros ->. Qed.

(** The width that a drag-end writes for a node read. *)
Lemma resyncId_lookup clientWidth p i j :
  current (columnsWidthState (resyncId clientWidth p i)) !! j =
  match nodeFor p i with
  | NoNode => current (columnsWidthState p) !! j
  | NodeElement node =>
      if decide (i = j) then Some (Some (clientWidth node))
      else current (columnsWidthState p) !! j
  | NodeInherited _ =>
      if decide (i = j) then Some None else current (columnsWidthState p) !! j
  end.
Proof.
  unfold resyncId. destruct (nodeFor p i); [done| |];
    cbn [columnWidths_update columnsWidthState current]; by rewrite lookup_insert.
Qed.

Lemma resync_fold_fields clientWidth ids p :
  start (columnsWidthState (fold_left (resyncId clientWidth) ids p))
    = start (columnsWidthState p)
  ∧ dragStartXPosForId (fold_left (resyncId clientWidth) ids p)
    = dragStartXPosForId p
  ∧ nodeForId (fold_left (resyncId clientWidth) ids p) = nodeForId p.
Proof.
  revert p. induction ids as [|i ids IH]; intros p; cbn [fold_left]; [done|].
  destruct (IH (resyncId clientWidth p i)) as (-> & -> & ->).
  apply resyncId_fields.
Qed.

Lemma resync_fold_lookup clientWidth ids p j :
  current (columnsWidthState (fold_left (resyncId clientWidth) ids p)) !! j =
  if decide (j ∈ ids) then
    match nodeFor p j with
    | NoNode => current (columnsWidthState p) !! j
    | NodeElement node => Some (Some (clientWidth node))
    | NodeInherited _ => Some None
    end
  else current (columnsWidthState p) !! j.
Proof.
  revert p. induction ids as [|i ids IH]; intros p; cbn [fold_left].
  - rewrite decide_False; [done|apply not_elem_of_nil].
  - rewrite IH.
    rewrite (nodeFor_ext p (resyncId clientWidth p i) j)
      by apply resyncId_fields.
    rewrite resyncId_lookup.
    destruct (decide (j = i)) as [->|Hne].
    + rewrite (decide_True (P := i ∈ i :: ids)) by apply list_elem_of_here.
      destruct (nodeFor p i), (decide (i ∈ ids));
        try rewrite (decide_True (P := i = i)) by done; done.
    + assert (i ≠ j) as Hne' by done.
      destruct (decide (j ∈ ids)) as [Hin|Hnin].
      * rewrite (decide_True (P := j ∈ i :: ids)) by by apply list_elem_of_further.
        destruct (nodeFor p j); [|done..].
        destruct (nodeFor p i); [done|by rewrite decide_False..].
      * rewrite (decide_False (P := j ∈ i :: ids)) by (rewrite elem_of_cons; tauto).
        destruct (nodeFor p i); [done|by rewrite decide_False..].
Qed.

Lemma dragEnd_fields cell event clientWidth p :
  start (columnsWidthState (dragEnd cell event clientWidth p))
    = start (columnsWidthState p)
  ∧ dragStartXPosForId (dragEnd cell event clientWidth p) = dragStartXPosForId p
  ∧ nodeForId (dragEnd cell event clientWidth p) = nodeForId p.
Proof.
  destruct cell as [i|g ids]; cbn [dragEnd].
  - apply resyncId_fields.
  - apply resync_fold_fields.
Qed.

Lemma dragEnd_lookup cell event clientWidth p j :
  current (columnsWidthState (dragEnd cell event clientWidth p)) !! j =
  if decide (j ∈ affectedIds cell) then
    match nodeFor p j with
    | NoNode => current (columnsWidthState p) !! j
    | NodeElement node => Some (Some (clientWidth node))
    | NodeInherited _ => Some None
    end
  else current (columnsWidthState p) !! j.
Proof.
  destruct cell as [i|g ids]; cbn [dragEnd affectedIds].
  - apply (resync_fold_lookup clientWidth [i] p j).
  - apply resync_fold_lookup.
Qed.


Lemma ColumnsWidthState_eq s s' :
  current s = current s' → start s = start s' → s = s'.
Proof. destruct s, s'; simpl; by intros -> ->. Qed.

Lemma PluginState_eq p p' :
  columnsWidthState p = columnsWidthState p' →
  dragStartXPosForId p = dragStartXPosForId p' →
  nodeForId p = nodeForId p' → p = p'.
Proof. destruct p, p'; simpl; by intros -> -> ->. Qed.

(** X5. A drag-end changes the width of no column outside the header,
    changes neither the start widths, nor the pointer positions, nor
    the mounted nodes, and a second drag-end under the same layout
    changes nothing more. *)
Theorem dragEnd_frame_idempotent cell event event' clientWidth p :
  let p' := dragEnd cell event clientWidth p in
  (∀ id, id ∉ affectedIds cell →
         current (columnsWidthState p') !! id = current (columnsWidthState p) !! id)
  ∧ start (columnsWidthState p') = start (columnsWidthState p)
  ∧ dragStartXPosForId p' = dragStartXPosForId p
  ∧ nodeForId p' = nodeForId p
  ∧ dragEnd cell event' clientWidth p' = p'.
Proof.
  intros p'. destruct (dragEnd_fields cell event clientWidth p) as (Hs & Hx & Hn).
  fold p' in Hs, Hx, Hn. split; [|repeat (split; [done|])].
  - intros id Hid. unfold p'. rewrite dragEnd_lookup. by rewrite decide_False.
  - destruct (dragEnd_fields cell event' clientWidth p') as (Hs' & Hx' & Hn').
    apply PluginState_eq; [|done|done].
    apply ColumnsWidthState_eq; [|done].
    apply map_eq. intros j. rewrite dragEnd_lookup, (nodeFor_ext p p' j Hn).
    unfold p'. rewrite dragEnd_lookup.
    destruct (decide (j ∈ affectedIds cell)); [|done].
    by destruct (nodeFor p j).
Qed.

(** *** Mounting and the attributes *)

(** X6. For a flat header whose id does not name a member of
    [Object.prototype]: the width that its column gets at mount stays
    after the header is unmounted, [nodeForId] then reads [undefined]
    for it, and a drag-end on the unmounted header changes nothing. *)
Theorem unmounted_flat_header_keeps_width id node clientWidth clientWidth' event p :
  inherits id = false →
  ∃ p0, action (FlatHeaderCell id) node clientWidth p = Some p0
        ∧ let p1 := destroy (FlatHeaderCell id) p0 in
          currentWidth (columnsWidthState p1) id = VNumber (clientWidth node)
          ∧ nodeFor p1 id = NoNode
          ∧ dragEnd (FlatHeaderCell id) event clientWidth' p1 = p1.
Proof.
  intros Hid. unfold action. cbn [cell_id].
  rewrite bool_decide_eq_false_2 by (intros [-> _]; done).
  eexists. split; [reflexivity|]. cbv zeta.
  cbn [destroy columnWidths_update cell_id columnsWidthState nodeForId current dragEnd].
  assert (delete id (<[id:=node]> (nodeForId p)) !! id = None) as Hgone
    by apply lookup_delete_eq.
  split; [|split].
  - unfold currentWidth, getProp. cbn [current]. by rewrite lookup_insert_eq.
  - unfold nodeFor, destroy, columnWidths_update. cbn [nodeForId cell_id].
    by rewrite Hgone, Hid.
  - unfold resyncId, nodeFor, destroy, columnWidths_update.
    cbn [nodeForId cell_id]. by rewrite Hgone, Hid.
Qed.

(** X7. Mounting a flat header whose id is not [__proto__] gives it
    the attributes that fix its width, minimum width and maximum width
    at the node's rendered width in pixels; mounting a group header
    whose id is not [__proto__] changes the attributes of no header;
    and a drag-move changes the attributes of no header whose id is
    outside the dragged header's columns. *)
Theorem attrs_after_mount_and_drag (numberToString : num → string)
    (inheritedToString : string → string) cell id node clientWidth event p :
  id ≠ "__proto__" →
  (∃ p', action (FlatHeaderCell id) node clientWidth p = Some p'
         ∧ attrs numberToString inheritedToString (FlatHeaderCell id) p'
           = Some {| width := numberToString (clientWidth node) +:+ "px";
                     min_width := numberToString (clientWidth node) +:+ "px";
                     max_width := numberToString (clientWidth node) +:+ "px";
                     box_sizing := "border-box" |})
  ∧ (∀ g ids other, g ≠ "__proto__" →
       ∃ p', action (GroupHeaderCell g ids) node clientWidth p = Some p'
             ∧ attrs numberToString inheritedToString other p'
               = attrs numberToString inheritedToString other p)
  ∧ (∀ other, cell_id other ∉ affectedIds cell →
       attrs numberToString inheritedToString other (dragMove cell event p)
       = attrs numberToString inheritedToString other p).
Proof.
  intros Hid. split; [|split].
  - unfold action. cbn [cell_id].
    rewrite bool_decide_eq_false_2 by (intros [? _]; done).
    eexists. split; [reflexivity|].
    unfold attrs, currentWidth, getProp.
    cbn [columnWidths_update cell_id columnsWidthState current].
    by rewrite lookup_insert_eq.
  - intros g ids other Hg. unfold action. cbn [cell_id].
    rewrite bool_decide_eq_false_2 by (intros [? _]; done).
    eexists. split; reflexivity.
  - intros other Hother. unfold attrs, currentWidth, getProp.
    by rewrite (dragMove_current_outside cell event p _ Hother).
Qed.

(** *** [dragStart] *)

(** What the [forEach] of a group drag-start leaves at [j]. *)
Lemma snapshot_fold_lookup s ids (st : gmap string (JsValue num)) j :
  fold_left (fun st id => setProp st id (currentWidth s id)) ids st !! j =
  if decide (j ∈ ids) then setProp st j (currentWidth s j) !! j else st !! j.
Proof.
  revert st. induction ids as [|i ids IH]; intros st; cbn [fold_left].
  - rewrite decide_False; [done|apply not_elem_of_nil].
  - rewrite IH. destruct (decide (j = i)) as [->|Hne].
    + rewrite (decide_True (P := i ∈ i :: ids)) by apply list_elem_of_here.
      destruct (decide (i ∈ ids)); [apply setProp_twice|done].
    + destruct (decide (j ∈ ids)) as [Hin|Hnin].
      * rewrite (decide_True (P := j ∈ i :: ids)) by by apply list_elem_of_further.
        apply setProp_lookup_congr. by apply setProp_lookup_ne.
      * rewrite (decide_False (P := j ∈ i :: ids)) by (rewrite elem_of_cons; tauto).
        by apply setProp_lookup_ne.
Qed.

(** [dragStart] assigns to the start width of every affected column
    what its current width reads, and changes no other start width. *)
Lemma dragStartUpdate_start cell s j :
  start (dragStartUpdate cell s) !! j =
  if decide (j ∈ affectedIds cell)
  then setProp (start s) j (currentWidth s j) !! j
  else start s !! j.
Proof.
  destruct cell as [i|g ids]; cbn [dragStartUpdate start affectedIds].
  - apply (snapshot_fold_lookup s [i] (start s) j).
  - apply snapshot_fold_lookup.
Qed.

Lemma dragStartUpdate_current cell s :
  current (dragStartUpdate cell s) = current s.
Proof. by destruct cell. Qed.

(** After [dragStart], the start width of an affected column other
    than [__proto__] reads what its current width reads. *)
Lemma dragStartUpdate_startWidth cell s j :
  j ∈ affectedIds cell → j ≠ "__proto__" →
  startWidth (dragStartUpdate cell s) j = currentWidth s j.
Proof.
  intros Hin Hne. unfold startWidth.
  apply (getProp_own (fun v => v) (start (dragStartUpdate cell s)) j
           (currentWidth s j)).
  rewrite dragStartUpdate_start, decide_True by done.
  apply setProp_lookup_eq. by left.
Qed.

(** No handler gives [start] an own property named [__proto__]: the
    only writes to [start] are the assignments of [dragStart]. *)
Lemma start_without_own_proto cell event node clientWidth p :
  start (columnsWidthState p) !! "__proto__" = None →
  start (columnsWidthState (dragStart cell event p)) !! "__proto__" = None
  ∧ start (columnsWidthState (dragMove cell event p)) !! "__proto__" = None
  ∧ start (columnsWidthState (dragEnd cell event clientWidth p)) !! "__proto__" = None
  ∧ start (columnsWidthState (destroy cell p)) !! "__proto__" = None
  ∧ ∀ p', action cell node clientWidth p = Some p' →
          start (columnsWidthState p') !! "__proto__" = None.
Proof.
  intros Hp. split; [|split; [|split; [|split]]].
  - unfold dragStart. destruct (targetIsNull event); [done|].
    destruct (getDragXPos event) as [x|]; [|done].
    cbn [columnsWidthState]. rewrite dragStartUpdate_start.
    destruct (decide _); [|done].
    rewrite setProp_lookup, decide_True by done. by rewrite Hp.
  - by rewrite (proj1 (dragMove_fields cell event p)).
  - by rewrite (proj1 (dragEnd_fields cell event clientWidth p)).
  - done.
  - intros p'. unfold action. destruct (bool_decide _); [done|].
    intros [= <-]. by destruct cell.
Qed.

(** X18. Starting a drag resizes nothing: [dragStart] changes no
    current width and no mounted node, it changes the start width of no
    column outside the header, and on an event whose target is null it
    changes nothing at all. *)
Theorem dragStart_keeps_widths cell event p :
  let p' := dragStart cell event p in
  current (columnsWidthState p') = current (columnsWidthState p)
  ∧ nodeForId p' = nodeForId p
  ∧ (∀ id, id ∉ affectedIds cell →
           start (columnsWidthState p') !! id = start (columnsWidthState p) !! id)
  ∧ (targetIsNull event = true → p' = p).
Proof.
  unfold dragStart. destruct (targetIsNull event); [done|].
  destruct (getDragXPos event) as [x|]; [|done].
  cbn [columnsWidthState nodeForId].
  split; [apply dragStartUpdate_current|]. split; [done|]. split; [|done].
  intros id Hid. rewrite dragStartUpdate_start. by rewrite decide_False.
Qed.

(** X1. A drag that starts at pointer position [x0] and moves to [x1]
    sets the width of a flat header's column to
    [max(0, w + (x1 - x0))], and the width of each column of a group
    header to [max(0, w + (x1 - x0) * (w / S))], where [w] is the
    column's width when the drag started and [S] the sum of the group's
    widths at that time; a column whose width read [undefined] when the
    drag started still reads [undefined], and one whose width was
    inherited from [Object.prototype] gets NaN. Neither the header's id
    nor any of its columns is [__proto__]. *)
Theorem drag_follows_pointer cell event0 event1 x0 x1 p id :
  targetIsNull event0 = false →
  getDragXPos event0 = Some x0 →
  getDragXPos event1 = Some x1 →
  "__proto__" ∉ cell_id cell :: affectedIds cell →
  id ∈ affectedIds cell →
  let s := columnsWidthState p in
  currentWidth
    (columnsWidthState (dragMove cell event1 (dragStart cell event0 p))) id =
  match currentWidth s id with
  | VNumber w =>
      match cell with
      | FlatHeaderCell _ => VNumber (Math_max num_zero (w + (x1 - x0))%js)
      | GroupHeaderCell _ ids =>
          let S := sum (map (currentWidth s) ids) in
          VNumber (Math_max num_zero (w + (x1 - x0) * (w / S))%js)
      end
  | VUndefined => VUndefined
  | VInherited _ => VNumber num_nan
  end.
Proof.
  intros Htarget Hx0 Hx1 Hproto Hin s.
  assert (cell_id cell ≠ "__proto__") as Hcell.
  { intros Heq. apply Hproto. rewrite <- Heq. apply list_elem_of_here. }
  assert (∀ j, j ∈ affectedIds cell → j ≠ "__proto__") as Hids.
  { intros j Hj ->. apply Hproto. by apply list_elem_of_further. }
  unfold dragStart, dragMove. rewrite Htarget, Hx0, Hx1.
  cbn [dragStartXPosForId columnsWidthState nodeForId].
  unfold dragStartXPos at 1. cbn [dragStartXPosForId].
  rewrite (getProp_own _ _ _ x0) by (apply setProp_lookup_eq; by left).
  cbn [toNumber]. fold s. set (s0 := dragStartUpdate cell s).
  assert (startWidth s0 id = currentWidth s id) as Hstart
    by (apply dragStartUpdate_startWidth; auto).
  assert (current s0 !! id = current s !! id) as Hown
    by (unfold s0; by rewrite dragStartUpdate_current).
  unfold currentWidth at 1.
  rewrite (getProp_ext _ _
             (match movedWidth cell (x1 - x0)%js s0 id with
              | Some v => setProp (current s0) id (Some v)
              | None => current s0
              end) id).
  2:{ rewrite dragMoveUpdate_lookup, decide_True by done.
      by destruct (movedWidth cell (x1 - x0)%js s0 id). }
  unfold movedWidth, assignedWidth. rewrite Hstart.
  destruct (currentWidth s id) as [|w|member] eqn:Hw.
  - unfold currentWidth in Hw. by rewrite (getProp_ext _ _ (current s) id Hown).
  - rewrite (getProp_own _ _ _ (Some _))
      by (apply setProp_lookup_eq; left; auto).
    destruct cell as [i|g ids]; [done|]. cbn [widthValue affectedIds] in *.
    do 4 f_equal. unfold proportionalWidth. do 3 f_equal.
    f_equal. apply map_ext_in. intros j Hj%list_elem_of_In.
    apply (dragStartUpdate_startWidth (GroupHeaderCell g ids)); auto.
  - by rewrite (getProp_own _ _ _ (Some _))
      by (apply setProp_lookup_eq; left; auto).
Qed.

End ResizeProps.

(** *** The plugin on IEEE-754 doubles *)

Section ResizeFloat.
Import Resize.
Open Scope float_scope.

(** [Math.max(0, x)] is never below zero: it is zero or more, or it is
    NaN (exactly when [x] is). *)
Lemma float_max_zero_floor (x : float) :
  PrimFloat.is_nan (float_max 0 x) = true ∨ (0 <=? float_max 0 x) = true.
Proof.
  unfold float_max.
  change (PrimFloat.is_nan 0) with false. cbn [orb].
  destruct (PrimFloat.is_nan x) eqn:Hnan; [by left|right].
  destruct (0 <? x) eqn:Hlt.
  - rewrite ltb_spec in Hlt. rewrite leb_spec.
    unfold SFltb in Hlt. unfold SFleb.
    by destruct (SFcompare (Prim2SF 0) (Prim2SF x)) as [[]|].
  - change (PrimFloat.get_sign 0) with false.
    by destruct (x <? 0).
Qed.

(** X8. On doubles, every width that a drag-move writes, for a flat or a
    group header and any delta, is zero or more, or NaN; it is never
    below zero. *)
Lemma dragMove_width_floor cell (d : float) (s : ColumnsWidthState float) id w :
  current (dragMoveUpdate cell d s) !! id = Some (Some w) →
  current s !! id = Some (Some w)
  ∨ PrimFloat.is_nan w = true ∨ (0 <=? w) = true.
Proof.
  rewrite dragMoveUpdate_lookup.
  destruct (decide (id ∈ affectedIds cell)); [|by left].
  destruct (movedWidth cell d s id) as [v|] eqn:Hv; [|by left].
  rewrite setProp_lookup, decide_True by done.
  assert (PrimFloat.is_nan v = true ∨ (0 <=? v) = true) as Hfloor.
  { unfold movedWidth, assignedWidth in Hv.
    destruct (startWidth s id) as [|w0|member]; [done| |].
    - injection Hv as <-. apply float_max_zero_floor.
    - injection Hv as <-. by left. }
  destruct (current s !! id) as [old|].
  - intros [= <-]. by right.
  - destruct (String.eqb id "__proto__"); [done|]. intros [= <-]. by right.
Qed.

End ResizeFloat.

(** *** Worked drags *)

Section ResizeExamples.
Import Resize.




(** C6. The floor at zero does not hold on every drag: two flat columns
    mounted while they are rendered with a width of zero, then a drag of
    their group header by ten pixels. The total start width is zero,
    each share is [0 / 0], and the width stored for each column is NaN,
    which is not greater than or equal to zero. *)
Theorem dragMove_zero_total_stores_nan :
  let group := GroupHeaderCell "g" ["a"; "b"] in
  let mouse x := {| targetIsNull := false; kind := MouseEvent x |} in
  let hidden : Layout float := fun node => 0%float in
  ∃ p2,
    (action (FlatHeaderCell "a") 1%nat hidden initialState
       ≫= action (FlatHeaderCell "b") 2%nat hidden) = Some p2
    ∧ let p3 := dragStart group (mouse 50%float) p2 in
      let p4 := dragMove group (mouse 60%float) p3 in
      currentWidth (columnsWidthState p2) "a" = VNumber 0%float
      ∧ currentWidth (columnsWidthState p4) "a" = VNumber PrimFloat.nan
      ∧ currentWidth (columnsWidthState p4) "b" = VNumber PrimFloat.nan
      ∧ PrimFloat.leb 0 PrimFloat.nan = false.
Proof.
  intros group mouse hidden. eexists. split; [vm_compute; reflexivity|].
  vm_compute. repeat split; reflexivity.
Qed.



Lemma drag_follows_pointer_witness :
  let p : PluginState float :=
    {| columnsWidthState :=
         {| current := {[ "a" := Some 100%float; "b" := Some 200%float ]};
            start := ∅ |};
       dragStartXPosForId := ∅;
       nodeForId := ∅ |} in
  let mouse x := {| targetIsNull := false; kind := MouseEvent x |} in
  let cell := GroupHeaderCell "g" ["a"; "b"] in
  currentWidth
    (columnsWidthState
       (dragMove cell (mouse 80%float) (dragStart cell (mouse 50%float) p))) "b"
  = VNumber 220%float.
Proof.
  intros p mouse cell.
  rewrite (drag_follows_pointer cell (mouse 50%float) (mouse 80%float)
             50%float 80%float p "b");
    [vm_compute; reflexivity|reflexivity|reflexivity|reflexivity| |].
  - intros Hin. apply list_elem_of_In in Hin. simpl in Hin.
    destruct Hin as [Heq|[Heq|[Heq|[]]]]; discriminate Heq.
  - apply list_elem_of_further, list_elem_of_here.
Defined.

Lemma dragMove_without_start_witness :
  let p : PluginState float :=
    {| columnsWidthState :=
         {| current := {[ "a" := Some 100%float; "b" := Some 200%float ]};
            start := {[ "a" := VNumber 100%float ]} |};
       dragStartXPosForId := {[ "a" := 50%float ]};
       nodeForId := ∅ |} in
  let event := {| targetIsNull := false; kind := MouseEvent 80%float |} in
  dragMove (FlatHeaderCell "b") event p = p.
Proof.
  intros p event. apply (dragMove_without_start (FlatHeaderCell "b") event p).
  intros id Hid%list_elem_of_singleton. subst id. reflexivity.
Defined.

Lemma dragMove_width_floor_witness :
  let s : ColumnsWidthState float :=
    {| current := {[ "a" := Some 100%float ]};
       start := {[ "a" := VNumber 100%float ]} |} in
  current (dragMoveUpdate (FlatHeaderCell "a") (-150)%float s) !! "a"
    = Some (Some 0%float)
  ∧ (current s !! "a" = Some (Some 0%float)
     ∨ PrimFloat.is_nan 0 = true ∨ PrimFloat.leb 0 0 = true).
Proof.
  intros s.
  assert (current (dragMoveUpdate (FlatHeaderCell "a") (-150)%float s) !! "a"
          = Some (Some 0%float)) as Hw by (vm_compute; reflexivity).
  split; [exact Hw|].
  exact (dragMove_width_floor (FlatHeaderCell "a") (-150)%float s "a" 0%float Hw).
Defined.

Lemma unmounted_flat_header_keeps_width_witness :
  let clientWidth : Layout float := fun node => 120%float in
  let event := {| targetIsNull := false; kind := MouseEvent 10%float |} in
  ∃ p0, action (FlatHeaderCell "a") 3%nat clientWidth initialState = Some p0
        ∧ let p1 := destroy (FlatHeaderCell "a") p0 in
          currentWidth (columnsWidthState p1) "a" = VNumber 120%float
          ∧ nodeFor p1 "a" = NoNode
          ∧ dragEnd (FlatHeaderCell "a") event (fun node => 90%float) p1 = p1.
Proof.
  intros clientWidth event.
  exact (unmounted_flat_header_keeps_width "a" 3%nat clientWidth
           (fun node => 90%float) event initialState eq_refl).
Defined.

Lemma attrs_after_mount_and_drag_witness :
  let clientWidth : Layout float := fun node => 120%float in
  let numberToString (w : float) : string :=
    if PrimFloat.eqb w 120 then "120" else "NaN" in
  ∃ p', action (FlatHeaderCell "a") 3%nat clientWidth initialState = Some p'
        ∧ attrs numberToString (fun member => member) (FlatHeaderCell "a") p'
          = Some (styleOfWidth "120px").
Proof.
  intros clientWidth numberToString.
  assert ("a" ≠ "__proto__") as Hid by discriminate.
  exact (proj1 (attrs_after_mount_and_drag numberToString (fun member => member)
                  (FlatHeaderCell "a") "a" 3%nat clientWidth
                  {| targetIsNull := false; kind := MouseEvent 10%float |}
                  initialState Hid)).
Defined.

End ResizeExamples.

(** ** Properties of the table filter plugin *)

Section FilterProps.
Import Filter.
Context {Value : Type} (toString : Value → string).
Context (filterValue : string)
        (columnOptions : gmap string (TableFilterColumnOptions Value))
        (fn : TableFilterFn)
        (includeHiddenColumns : bool).
Implicit Types (row r : BodyRow Value) (rows subs : list (BodyRow Value)).
Implicit Types (cell : BodyCell Value) (cs : list (BodyCell Value)).
Implicit Types (m : gmap string bool).

#[local] Abbreviation cellMatch :=
  (cellMatch toString filterValue columnOptions fn includeHiddenColumns).
#[local] Abbreviation rowCellMatches :=
  (rowCellMatches toString filterValue columnOptions fn includeHiddenColumns).
#[local] Abbreviation keepRow :=
  (keepRow toString filterValue columnOptions fn includeHiddenColumns).
#[local] Abbreviation filterRows :=
  (filterRows toString filterValue columnOptions fn includeHiddenColumns).
#[local] Abbreviation mapRow :=
  (mapRow toString filterValue columnOptions fn includeHiddenColumns).
#[local] Abbreviation mapRows :=
  (mapRows toString filterValue columnOptions fn includeHiddenColumns).
#[local] Abbreviation getFilteredRows :=
  (getFilteredRows toString filterValue columnOptions fn includeHiddenColumns).
#[local] Abbreviation evaluable := (evaluable columnOptions includeHiddenColumns).
#[local] Abbreviation predicateAccepts :=
  (predicateAccepts toString filterValue columnOptions fn).
#[local] Abbreviation cellMatches :=
  (cellMatches toString filterValue columnOptions fn includeHiddenColumns).
#[local] Abbreviation rowMatches :=
  (rowMatches toString filterValue columnOptions fn includeHiddenColumns).
#[local] Abbreviation remainingSubRows :=
  (remainingSubRows toString filterValue columnOptions fn includeHiddenColumns).

(** Induction on a row tree: a row with sub-rows may assume the
    property of each of them. *)
Lemma BodyRow_tree_ind (P : BodyRow Value → Prop) :
  (∀ id cfi cs, P (mkBodyRow id cfi cs None)) →
  (∀ id cfi cs subs, Forall P subs → P (mkBodyRow id cfi cs (Some subs))) →
  ∀ row, P row.
Proof.
  intros Hleaf Hnode. fix IH 1. intros [id cfi cs [subs|]].
  - apply Hnode. revert subs. fix IHsubs 1. intros [|r subs].
    + constructor.
    + constructor; [apply IH|apply IHsubs].
  - apply Hleaf.
Qed.

(** The recursion of [getFilteredRows], as the source writes it. *)
Lemma mapRow_unfold row m :
  mapRow row m =
  match subRows row with
  | None => (row, m)
  | Some subs =>
      let '(filteredSubRows, m') := getFilteredRows subs m in
      (getCloned row filteredSubRows, m')
  end.
Proof.
  destruct row as [id cfi cs [subs|]]; [|done].
  transitivity
    (let '(mp, m1) := mapRows subs m in
     let '(filteredSubRows, m2) := filterRows mp m1 in
     (getCloned (mkBodyRow id cfi cs (Some subs)) filteredSubRows, m2));
    [reflexivity|].
  unfold Filter.getFilteredRows. simpl.
  destruct (mapRows subs m) as [mp m1]. by destruct (filterRows mp m1).
Qed.

(** *** The rows returned do not depend on the store *)

Lemma cellMatch_fst row cell m : (cellMatch row cell m).1 = cellMatches row cell.
Proof.
  unfold Filter.cellMatch, Filter.cellMatches, Filter.evaluable,
    Filter.predicateAccepts.
  destruct (isExcluded columnOptions cell); [done|].
  destruct (isHidden row cell), includeHiddenColumns, cell; done.
Qed.

Lemma rowCellMatches_fst row cs m :
  (rowCellMatches row cs m).1 = map (cellMatches row) cs.
Proof.
  revert m. induction cs as [|cell cs IH]; intros m; simpl; [done|].
  pose proof (cellMatch_fst row cell m) as Hc.
  destruct (cellMatch row cell m) as [b m1]. specialize (IH m1).
  destruct (rowCellMatches row cs m1) as [bs m2]. simpl in *. by subst.
Qed.

Lemma includes_true_map row cs :
  includes_true (map (cellMatches row) cs) = existsb (cellMatches row) cs.
Proof. unfold includes_true. induction cs; simpl; [done|by f_equal]. Qed.

#[local] Abbreviation keeps :=
  (keeps toString filterValue columnOptions fn includeHiddenColumns).
#[local] Abbreviation mapped :=
  (mapped toString filterValue columnOptions fn includeHiddenColumns).

Lemma keepRow_fst row m : (keepRow row m).1 = keeps row.
Proof.
  unfold Filter.keepRow, Filter.keeps, Filter.rowMatches.
  destruct (default [] (subRows row)) as [|r rest]; simpl; [|done].
  pose proof (rowCellMatches_fst row (Object_values (cellForId row)) m) as Hc.
  destruct (rowCellMatches row (Object_values (cellForId row)) m) as [bs m'].
  simpl in *. subst bs. apply includes_true_map.
Qed.

Lemma filterRows_fst rows m : (filterRows rows m).1 = filter (fun r => keeps r = true) rows.
Proof.
  revert m. induction rows as [|r rows IH]; intros m; simpl; [done|].
  pose proof (keepRow_fst r m) as Hk.
  destruct (keepRow r m) as [keep m1]. specialize (IH m1).
  destruct (filterRows rows m1) as [kept m2]. simpl in *. subst.
  rewrite filter_cons. destruct (keeps r) eqn:Hr.
  - by rewrite decide_True.
  - by rewrite decide_False.
Qed.

Lemma mapRows_fst_Forall rows m :
  Forall (fun r => ∀ m', (mapRow r m').1 = mapped r) rows →
  (mapRows rows m).1 = map mapped rows.
Proof.
  intros Hall. revert m. induction Hall as [|r rows Hr _ IH]; intros m; simpl; [done|].
  specialize (Hr m). destruct (mapRow r m) as [r' ma]. specialize (IH ma).
  destruct (mapRows rows ma) as [rest' mb]. simpl in *. by subst.
Qed.

Lemma getFilteredRows_fst_Forall rows m :
  Forall (fun r => ∀ m', (mapRow r m').1 = mapped r) rows →
  (getFilteredRows rows m).1 = filter (fun r => keeps r = true) (map mapped rows).
Proof.
  intros Hall. unfold Filter.getFilteredRows.
  pose proof (mapRows_fst_Forall rows m Hall) as Hm.
  destruct (mapRows rows m) as [mp m1]. simpl in Hm. subst mp.
  apply filterRows_fst.
Qed.

Lemma mapRow_fst row : ∀ m, (mapRow row m).1 = mapped row.
Proof.
  induction row as [id cfi cs|id cfi cs subs IH] using BodyRow_tree_ind;
    intros m; unfold Filter.mapped; rewrite !mapRow_unfold; simpl; [done|].
  pose proof (getFilteredRows_fst_Forall subs m IH) as H1.
  pose proof (getFilteredRows_fst_Forall subs ∅ IH) as H2.
  destruct (getFilteredRows subs m) as [f1 m1].
  destruct (getFilteredRows subs ∅) as [f2 m2]. simpl in *. by subst.
Qed.

(** [getFilteredRows] maps every row and keeps those that pass. *)
Lemma getFilteredRows_fst rows m :
  (getFilteredRows rows m).1 = filter (fun r => keeps r = true) (map mapped rows).
Proof.
  apply getFilteredRows_fst_Forall, Forall_forall. intros r _. apply mapRow_fst.
Qed.

(** What [.map] returns for a row, by cases on its sub-rows. *)
Lemma mapped_leaf row : subRows row = None → mapped row = row.
Proof. intros Hs. unfold Filter.mapped. by rewrite mapRow_unfold, Hs. Qed.

Lemma mapped_node row subs :
  subRows row = Some subs → mapped row = getCloned row (remainingSubRows row).
Proof.
  intros Hs. unfold Filter.mapped, Filter.remainingSubRows.
  rewrite mapRow_unfold, Hs. simpl.
  by destruct (getFilteredRows subs ∅).
Qed.

(** A clone has the cells of its row, so it matches when the row does. *)
Lemma rowMatches_getCloned row subs :
  rowMatches (getCloned row subs) = rowMatches row.
Proof. by destruct row. Qed.

Lemma evaluable_getCloned row subs cell :
  evaluable (getCloned row subs) cell = evaluable row cell.
Proof. by destruct row. Qed.

Lemma remainingSubRows_leaf row : subRows row = None → remainingSubRows row = [].
Proof. intros Hs. unfold Filter.remainingSubRows. by rewrite Hs. Qed.

Lemma rowMatches_mapped row : rowMatches (mapped row) = rowMatches row.
Proof.
  destruct (subRows row) as [subs|] eqn:Hs.
  - rewrite (mapped_node row subs Hs). apply rowMatches_getCloned.
  - by rewrite (mapped_leaf row Hs).
Qed.

(** A row is kept when it has a sub-row left, or else when it matches. *)
Lemma keeps_mapped row :
  keeps (mapped row) =
  match remainingSubRows row with
  | [] => rowMatches row
  | _ :: _ => true
  end.
Proof.
  unfold Filter.keeps at 1. rewrite rowMatches_mapped.
  destruct (subRows row) as [subs|] eqn:Hs.
  - by rewrite (mapped_node row subs Hs).
  - by rewrite (mapped_leaf row Hs), Hs, (remainingSubRows_leaf row Hs).
Qed.

Lemma elem_of_getFilteredRows rows m x :
  x ∈ (getFilteredRows rows m).1 ↔
  keeps x = true ∧ ∃ r, r ∈ rows ∧ x = mapped r.
Proof.
  rewrite getFilteredRows_fst, list_elem_of_filter, list_elem_of_In, in_map_iff.
  setoid_rewrite <- list_elem_of_In.
  split; intros [Hk (r & H1 & H2)]; (split; [done|]); exists r; by split.
Qed.

(** *** Entries of the store are never removed *)

Lemma cellMatch_store_mono row cell m k :
  is_Some (m !! k) → is_Some ((cellMatch row cell m).2 !! k).
Proof.
  intros Hk. unfold Filter.cellMatch.
  destruct (isExcluded columnOptions cell); [done|].
  destruct (isHidden row cell && negb includeHiddenColumns); [done|].
  destruct cell as [i key v|i key]; [|done]. simpl.
  rewrite lookup_insert. by destruct (decide _).
Qed.

Lemma rowCellMatches_store_mono row cs m k :
  is_Some (m !! k) → is_Some ((rowCellMatches row cs m).2 !! k).
Proof.
  revert m. induction cs as [|cell cs IH]; intros m Hk; simpl; [done|].
  pose proof (cellMatch_store_mono row cell m k Hk) as Hc.
  destruct (cellMatch row cell m) as [b m1]. specialize (IH m1 Hc).
  by destruct (rowCellMatches row cs m1).
Qed.

Lemma keepRow_store_mono row m k :
  is_Some (m !! k) → is_Some ((keepRow row m).2 !! k).
Proof.
  intros Hk. unfold Filter.keepRow.
  destruct (negb _); [done|].
  pose proof (rowCellMatches_store_mono row (Object_values (cellForId row)) m k Hk).
  by destruct (rowCellMatches row (Object_values (cellForId row)) m).
Qed.

Lemma filterRows_store_mono rows m k :
  is_Some (m !! k) → is_Some ((filterRows rows m).2 !! k).
Proof.
  revert m. induction rows as [|r rows IH]; intros m Hk; simpl; [done|].
  pose proof (keepRow_store_mono r m k Hk) as Hr.
  destruct (keepRow r m) as [keep m1]. specialize (IH m1 Hr).
  by destruct (filterRows rows m1).
Qed.

Lemma mapRows_store_mono_Forall rows m k :
  Forall (fun r => ∀ m', is_Some (m' !! k) → is_Some ((mapRow r m').2 !! k)) rows →
  is_Some (m !! k) → is_Some ((mapRows rows m).2 !! k).
Proof.
  intros Hall. revert m. induction Hall as [|r rows Hr _ IH]; intros m Hk; simpl; [done|].
  specialize (Hr m Hk). destruct (mapRow r m) as [r' ma]. specialize (IH ma Hr).
  by destruct (mapRows rows ma).
Qed.

Lemma mapRow_store_mono row k :
  ∀ m, is_Some (m !! k) → is_Some ((mapRow row m).2 !! k).
Proof.
  induction row as [id cfi cs|id cfi cs subs IH] using BodyRow_tree_ind;
    intros m Hk; [done|].
  pose proof (mapRows_store_mono_Forall subs m k IH Hk) as Hm.
  change (mapRow (mkBodyRow id cfi cs (Some subs)) m) with
    (let '(mp, m1) := mapRows subs m in
     let '(filteredSubRows, m2) := filterRows mp m1 in
     (getCloned (mkBodyRow id cfi cs (Some subs)) filteredSubRows, m2)).
  destruct (mapRows subs m) as [mp m1].
  pose proof (filterRows_store_mono mp m1 k Hm).
  by destruct (filterRows mp m1).
Qed.

Lemma mapRows_store_mono rows m k :
  is_Some (m !! k) → is_Some ((mapRows rows m).2 !! k).
Proof.
  apply mapRows_store_mono_Forall, Forall_forall. intros r _. apply mapRow_store_mono.
Qed.

Lemma getFilteredRows_store_mono rows m k :
  is_Some (m !! k) → is_Some ((getFilteredRows rows m).2 !! k).
Proof.
  intros Hk. unfold Filter.getFilteredRows.
  pose proof (mapRows_store_mono rows m k Hk) as Hm.
  destruct (mapRows rows m) as [mp m1]. by apply filterRows_store_mono.
Qed.

(** *** The rows of a tree *)

Lemma descendants_unfold row :
  descendants row = allRows (default [] (subRows row)).
Proof. by destruct row as [id cfi cs [subs|]]. Qed.

Lemma elem_of_allRows rows x :
  x ∈ allRows rows ↔ ∃ r, r ∈ rows ∧ (x = r ∨ x ∈ descendants r).
Proof.
  unfold allRows. rewrite list_elem_of_In, in_flat_map.
  split; intros (r & Hr & Hx); exists r.
  - apply list_elem_of_In in Hr. split; [done|].
    destruct Hx as [->|Hx]; [by left|right; by apply list_elem_of_In].
  - apply list_elem_of_In in Hr. split; [done|].
    destruct Hx as [->|Hx]; [by left|right; by apply list_elem_of_In].
Qed.

(** A descendant of a sub-row is a descendant of the row. *)
Lemma descendants_sub row subs y x :
  subRows row = Some subs → y ∈ subs → x = y ∨ x ∈ descendants y →
  x ∈ descendants row.
Proof.
  intros Hs Hy Hx. rewrite descendants_unfold, Hs. simpl.
  apply elem_of_allRows. by exists y.
Qed.

Lemma mapped_cellForId row : cellForId (mapped row) = cellForId row.
Proof.
  destruct (subRows row) as [subs|] eqn:Hs.
  - rewrite (mapped_node row subs Hs). by destruct row.
  - by rewrite (mapped_leaf row Hs).
Qed.

Lemma mapped_subRows row :
  default [] (subRows (mapped row)) = remainingSubRows row.
Proof.
  destruct (subRows row) as [subs|] eqn:Hs.
  - by rewrite (mapped_node row subs Hs).
  - by rewrite (mapped_leaf row Hs), Hs, (remainingSubRows_leaf row Hs).
Qed.

Lemma evaluable_mapped row cell : evaluable (mapped row) cell = evaluable row cell.
Proof.
  destruct (subRows row) as [subs|] eqn:Hs.
  - rewrite (mapped_node row subs Hs). apply evaluable_getCloned.
  - by rewrite (mapped_leaf row Hs).
Qed.

(** *** Which cells are recorded *)

Lemma cellMatch_records row cell m :
  evaluable row cell = true →
  is_Some ((cellMatch row cell m).2 !! rowColId cell).
Proof.
  unfold Filter.evaluable, Filter.cellMatch.
  destruct (isExcluded columnOptions cell); [done|].
  destruct (isHidden row cell), includeHiddenColumns; simpl; try done;
    (destruct cell as [i key v|i key]; [|done]); intros _; simpl;
    by rewrite lookup_insert_eq.
Qed.

Lemma rowCellMatches_records row cs m cell :
  cell ∈ cs → evaluable row cell = true →
  is_Some ((rowCellMatches row cs m).2 !! rowColId cell).
Proof.
  intros Hin Hev. revert m.
  induction cs as [|c cs IH]; intros m; [by apply elem_of_nil in Hin|].
  simpl. apply elem_of_cons in Hin as [->|Hin].
  - pose proof (cellMatch_records row c m Hev) as Hc.
    destruct (cellMatch row c m) as [b m1].
    pose proof (rowCellMatches_store_mono row cs m1 _ Hc).
    by destruct (rowCellMatches row cs m1).
  - destruct (cellMatch row c m) as [b m1]. specialize (IH Hin m1).
    by destruct (rowCellMatches row cs m1).
Qed.

(** The [.filter] callback evaluates the cells of a row that has no
    sub-row left. *)
Lemma keepRow_records row m cell :
  default [] (subRows row) = [] →
  cell ∈ Object_values (cellForId row) → evaluable row cell = true →
  is_Some ((keepRow row m).2 !! rowColId cell).
Proof.
  intros Hs Hin Hev. unfold Filter.keepRow. rewrite Hs. simpl.
  pose proof (rowCellMatches_records row _ m cell Hin Hev).
  by destruct (rowCellMatches row (Object_values (cellForId row)) m).
Qed.

Lemma filterRows_records rows m x cell :
  x ∈ rows → default [] (subRows x) = [] →
  cell ∈ Object_values (cellForId x) → evaluable x cell = true →
  is_Some ((filterRows rows m).2 !! rowColId cell).
Proof.
  intros Hx Hs Hin Hev. revert m.
  induction rows as [|r rows IH]; intros m; [by apply elem_of_nil in Hx|].
  simpl. apply elem_of_cons in Hx as [<-|Hx].
  - pose proof (keepRow_records x m cell Hs Hin Hev) as Hr.
    destruct (keepRow x m) as [keep m1].
    pose proof (filterRows_store_mono rows m1 _ Hr).
    by destruct (filterRows rows m1).
  - destruct (keepRow r m) as [keep m1]. specialize (IH Hx m1).
    by destruct (filterRows rows m1).
Qed.

(** Below [row], the cells of a row that ends with no sub-row are
    recorded by the time [.map] is done with [row]. *)
#[local] Abbreviation recordsBelow row :=
  (∀ m x cell,
    x ∈ descendants row → remainingSubRows x = [] →
    cell ∈ Object_values (cellForId x) → evaluable x cell = true →
    is_Some ((mapRow row m).2 !! rowColId cell)).

Lemma mapRows_records rows :
  Forall (fun r => recordsBelow r) rows →
  ∀ m r x cell,
    r ∈ rows → x ∈ descendants r → remainingSubRows x = [] →
    cell ∈ Object_values (cellForId x) → evaluable x cell = true →
    is_Some ((mapRows rows m).2 !! rowColId cell).
Proof.
  induction 1 as [|r0 rows Hr0 _ IH]; intros m r x cell Hr Hx Hs Hin Hev;
    [by apply elem_of_nil in Hr|].
  simpl. apply elem_of_cons in Hr as [->|Hr].
  - specialize (Hr0 m x cell Hx Hs Hin Hev).
    destruct (mapRow r0 m) as [r' ma].
    pose proof (mapRows_store_mono rows ma _ Hr0).
    by destruct (mapRows rows ma).
  - destruct (mapRow r0 m) as [r' ma].
    specialize (IH ma r x cell Hr Hx Hs Hin Hev).
    by destruct (mapRows rows ma).
Qed.

Lemma getFilteredRows_records_Forall rows :
  Forall (fun r => recordsBelow r) rows →
  ∀ m x cell,
    x ∈ allRows rows → remainingSubRows x = [] →
    cell ∈ Object_values (cellForId x) → evaluable x cell = true →
    is_Some ((getFilteredRows rows m).2 !! rowColId cell).
Proof.
  intros Hall m x cell Hx Hs Hin Hev.
  apply elem_of_allRows in Hx as (r & Hr & [->|Hx]).
  - unfold Filter.getFilteredRows.
    pose proof (mapRows_fst_Forall rows m) as Hfst.
    destruct (mapRows rows m) as [mp m1]. simpl in Hfst.
    rewrite Hfst by (apply Forall_forall; intros; apply mapRow_fst).
    apply (filterRows_records _ m1 (mapped r)).
    + apply list_elem_of_In, in_map, list_elem_of_In, Hr.
    + by rewrite mapped_subRows.
    + by rewrite mapped_cellForId.
    + by rewrite evaluable_mapped.
  - unfold Filter.getFilteredRows.
    pose proof (mapRows_records rows Hall m r x cell Hr Hx Hs Hin Hev) as Hm.
    destruct (mapRows rows m) as [mp m1]. by apply filterRows_store_mono.
Qed.

Lemma mapRow_records row : recordsBelow row.
Proof.
  induction row as [id cfi cs|id cfi cs subs IH] using BodyRow_tree_ind;
    intros m x cell Hx Hs Hin Hev; [by apply elem_of_nil in Hx|].
  rewrite descendants_unfold in Hx. simpl in Hx.
  pose proof (getFilteredRows_records_Forall subs IH m x cell Hx Hs Hin Hev) as Hg.
  rewrite mapRow_unfold. simpl. by destruct (getFilteredRows subs m).
Qed.

(** Every evaluable cell of a row that ends with no sub-row, at any
    depth, has an entry in the store when [getFilteredRows] returns,
    whether or not the row is kept. *)
Lemma getFilteredRows_records rows m x cell :
  x ∈ allRows rows → remainingSubRows x = [] →
  cell ∈ Object_values (cellForId x) → evaluable x cell = true →
  is_Some ((getFilteredRows rows m).2 !! rowColId cell).
Proof.
  apply getFilteredRows_records_Forall, Forall_forall.
  intros r _. apply mapRow_records.
Qed.

(** *** Matches bubble up *)

(** A row matches, or a row below it does. *)
#[local] Abbreviation matchesWithin x :=
  (rowMatches x = true ∨ ∃ d, d ∈ descendants x ∧ rowMatches d = true).

Lemma mapped_kept rows m r :
  r ∈ rows → keeps (mapped r) = true → mapped r ∈ (getFilteredRows rows m).1.
Proof. intros Hr Hk. apply elem_of_getFilteredRows. split; [done|by exists r]. Qed.

Lemma getFilteredRows_nonempty_Forall rows m :
  Forall (fun r => (∃ d, d ∈ descendants r ∧ rowMatches d = true) →
                   remainingSubRows r ≠ []) rows →
  (∃ d, d ∈ allRows rows ∧ rowMatches d = true) →
  (getFilteredRows rows m).1 ≠ [].
Proof.
  intros Hall (d & Hd & Hm).
  apply elem_of_allRows in Hd as (r & Hr & Hd).
  assert (keeps (mapped r) = true) as Hk.
  { rewrite keeps_mapped. destruct Hd as [->|Hd].
    - by destruct (remainingSubRows r).
    - rewrite Forall_forall in Hall.
      specialize (Hall r Hr (ex_intro _ d (conj Hd Hm))).
      by destruct (remainingSubRows r). }
  pose proof (mapped_kept rows m r Hr Hk) as Hin.
  intros Hnil. rewrite Hnil in Hin. by apply elem_of_nil in Hin.
Qed.

(** A row above a matching row has a sub-row left. *)
Lemma matching_descendant_remains row :
  (∃ d, d ∈ descendants row ∧ rowMatches d = true) → remainingSubRows row ≠ [].
Proof.
  induction row as [id cfi cs|id cfi cs subs IH] using BodyRow_tree_ind;
    intros (d & Hd & Hm); [by apply elem_of_nil in Hd|].
  rewrite descendants_unfold in Hd. simpl in Hd.
  apply (getFilteredRows_nonempty_Forall subs ∅ IH). by exists d.
Qed.

(** A row that matches, or lies above a matching row, is kept. *)
Lemma matchesWithin_kept rows m r :
  r ∈ rows → matchesWithin r → mapped r ∈ (getFilteredRows rows m).1.
Proof.
  intros Hr Hw. apply mapped_kept; [done|]. rewrite keeps_mapped.
  destruct Hw as [Hm|Hd].
  - by destruct (remainingSubRows r).
  - apply matching_descendant_remains in Hd. by destruct (remainingSubRows r).
Qed.

Lemma descendants_mapped row :
  descendants (mapped row) = allRows (remainingSubRows row).
Proof. by rewrite descendants_unfold, mapped_subRows. Qed.

Lemma kept_rows_matchesWithin_Forall rows m :
  Forall (fun r => ∀ x, x ∈ descendants (mapped r) → matchesWithin x) rows →
  ∀ x, x ∈ allRows (getFilteredRows rows m).1 → matchesWithin x.
Proof.
  intros Hall x Hx. rewrite Forall_forall in Hall.
  apply elem_of_allRows in Hx as (y & Hy & Hx).
  apply elem_of_getFilteredRows in Hy as (Hk & r & Hr & ->).
  destruct Hx as [->|Hx]; [|by apply (Hall r Hr)].
  rewrite keeps_mapped in Hk.
  destruct (remainingSubRows r) as [|z rest] eqn:Hrem.
  - left. by rewrite rowMatches_mapped.
  - right.
    assert (z ∈ descendants (mapped r)) as Hz.
    { rewrite descendants_mapped, Hrem. apply elem_of_allRows.
      exists z. split; [apply list_elem_of_here|by left]. }
    destruct (Hall r Hr z Hz) as [Hm|(d & Hd & Hm)]; [by exists z|].
    exists d. split; [|done].
    rewrite descendants_mapped, Hrem. apply elem_of_allRows.
    exists z. split; [apply list_elem_of_here|by right].
Qed.

Lemma mapped_descendants_matchesWithin row :
  ∀ x, x ∈ descendants (mapped row) → matchesWithin x.
Proof.
  induction row as [id cfi cs|id cfi cs subs IH] using BodyRow_tree_ind;
    intros x Hx; rewrite descendants_mapped in Hx.
  - rewrite remainingSubRows_leaf in Hx by done.
    by apply elem_of_nil in Hx.
  - by apply (kept_rows_matchesWithin_Forall subs ∅ IH).
Qed.

(** Every row of the result, at any depth, matches or lies above a
    matching row. *)
Lemma kept_rows_matchesWithin rows m x :
  x ∈ allRows (getFilteredRows rows m).1 → matchesWithin x.
Proof.
  apply kept_rows_matchesWithin_Forall, Forall_forall.
  intros r _. apply mapped_descendants_matchesWithin.
Qed.

(** C4. A row that has a matching row below it is kept, whether or not
    its own cells match (so also when none of them does): the result
    holds its clone with the filtered sub-rows, at least one sub-row is
    left, and every row left below it matches or lies above a matching
    row. *)
Theorem matching_descendant_keeps_parent rows m row d :
  row ∈ rows → d ∈ descendants row → rowMatches d = true →
  getCloned row (remainingSubRows row) ∈ (getFilteredRows rows m).1
  ∧ remainingSubRows row ≠ []
  ∧ ∀ x, x ∈ descendants (getCloned row (remainingSubRows row)) →
         rowMatches x = true ∨ ∃ d', d' ∈ descendants x ∧ rowMatches d' = true.
Proof.
  intros Hrow Hd Hm.
  assert (∃ subs, subRows row = Some subs) as [subs Hs].
  { destruct (subRows row) as [subs|] eqn:Hs; [by exists subs|].
    rewrite descendants_unfold, Hs in Hd. by apply elem_of_nil in Hd. }
  rewrite <- (mapped_node row subs Hs). split; [|split].
  - apply matchesWithin_kept; [done|]. right. by exists d.
  - apply matching_descendant_remains. by exists d.
  - apply mapped_descendants_matchesWithin.
Qed.

(** C10. A row whose sub-rows are all removed by the recursive filter
    is put in the result with an empty sub-row list exactly when one of
    its own cells matches; a row that never had sub-rows is put in the
    result exactly when one of its own cells matches: the same rule. *)
Theorem emptied_parent_judged_by_own_cells rows m row :
  row ∈ rows → remainingSubRows row = [] →
  let row' :=
    match subRows row with
    | Some _ => getCloned row []
    | None => row
    end in
  row' ∈ (getFilteredRows rows m).1 ↔ rowMatches row = true.
Proof.
  intros Hrow Hrem row'.
  assert (row' = mapped row) as ->.
  { unfold row'. destruct (subRows row) as [subs|] eqn:Hs.
    - by rewrite (mapped_node row subs Hs), Hrem.
    - by rewrite (mapped_leaf row Hs). }
  rewrite elem_of_getFilteredRows, keeps_mapped, Hrem. split.
  - by intros [Hk _].
  - intros Hk. split; [done|by exists row].
Qed.

(** *** A predicate that accepts every value *)

Lemma rowMatches_true_iff row :
  rowMatches row = true ↔
  ∃ cell, cell ∈ Object_values (cellForId row) ∧ cellMatches row cell = true.
Proof.
  unfold Filter.rowMatches. rewrite existsb_exists.
  by setoid_rewrite list_elem_of_In.
Qed.

Section AcceptsAll.
Hypothesis fn_accepts : ∀ value, fn filterValue value = true.

(** The rows without a sub-row each have an evaluable cell. *)
#[local] Abbreviation leavesEvaluable xs :=
  (∀ x, x ∈ xs → default [] (subRows x) = [] →
        ∃ cell, cell ∈ Object_values (cellForId x) ∧ evaluable x cell = true).

Lemma keeps_of_evaluable row :
  (default [] (subRows row) = [] →
   ∃ cell, cell ∈ Object_values (cellForId row) ∧ evaluable row cell = true) →
  keeps row = true.
Proof.
  intros Hev. unfold Filter.keeps.
  destruct (default [] (subRows row)) as [|z rest]; [|done].
  destruct Hev as (cell & Hin & Hcell); [done|].
  apply rowMatches_true_iff. exists cell. split; [done|].
  unfold Filter.cellMatches. rewrite Hcell. simpl.
  unfold Filter.evaluable in Hcell.
  destruct cell as [i key v|i key]; simpl.
  - apply fn_accepts.
  - by rewrite andb_false_r in Hcell.
Qed.

Lemma accepting_filter_identity_Forall rows m :
  Forall (fun r => leavesEvaluable (descendants r) → mapped r = r) rows →
  leavesEvaluable (allRows rows) →
  (getFilteredRows rows m).1 = rows.
Proof.
  intros Hall Hev. rewrite getFilteredRows_fst.
  induction Hall as [|r rows Hr _ IH]; [done|].
  simpl. rewrite Hr, filter_cons.
  - rewrite decide_True.
    + f_equal. apply IH. intros x Hx. apply Hev.
      apply elem_of_allRows in Hx as (y & Hy & Hx). apply elem_of_allRows.
      exists y. split; [by apply list_elem_of_further|done].
    + apply keeps_of_evaluable, Hev, elem_of_allRows.
      exists r. split; [apply list_elem_of_here|by left].
  - intros x Hx. apply Hev, elem_of_allRows.
    exists r. split; [apply list_elem_of_here|by right].
Qed.

Lemma accepting_filter_mapped row :
  leavesEvaluable (descendants row) → mapped row = row.
Proof.
  induction row as [id cfi cs|id cfi cs subs IH] using BodyRow_tree_ind;
    intros Hev; [by apply mapped_leaf|].
  rewrite (mapped_node _ subs) by done.
  unfold Filter.remainingSubRows. simpl.
  rewrite (accepting_filter_identity_Forall subs ∅ IH); [done|].
  intros x Hx. apply Hev. by rewrite descendants_unfold.
Qed.

(** When the predicate accepts every value and every row without
    sub-rows has an evaluable cell, the rows come back as they were. *)
Lemma accepting_filter_identity rows m :
  leavesEvaluable (allRows rows) → (getFilteredRows rows m).1 = rows.
Proof.
  apply accepting_filter_identity_Forall, Forall_forall.
  intros r _. apply accepting_filter_mapped.
Qed.

End AcceptsAll.
End FilterProps.

(** *** The plugin's stores and hook *)

Section FilterPlugin.
Import Filter.
Context {Value : Type} (toString : Value → string)
        (toLowerCase : string → string).
Implicit Types (row x : BodyRow Value) (rows : list (BodyRow Value)).
Implicit Types (cell : BodyCell Value) (p : PluginState (Value := Value)).

(** With the default predicate an empty filter value accepts every
    value. *)
Lemma textPrefixFilter_empty value :
  textPrefixFilter toLowerCase "" value = true.
Proof. reflexivity. Qed.

(** C2. Filtering with the empty filter value and the default predicate
    returns the rows as they were (same rows, same order, same
    sub-rows at every depth) whenever every row that has no sub-rows,
    at any depth, has at least one evaluable cell. *)
Theorem empty_filter_returns_rows columnOptions includeHiddenColumns rows m :
  (∀ x, x ∈ allRows rows → default [] (subRows x) = [] →
        ∃ cell, cell ∈ Object_values (cellForId x)
                ∧ evaluable columnOptions includeHiddenColumns x cell = true) →
  (getFilteredRows toString "" columnOptions (textPrefixFilter toLowerCase)
                   includeHiddenColumns rows m).1 = rows.
Proof.
  apply accepting_filter_identity. apply textPrefixFilter_empty.
Qed.

(** C3. After a recomputation of the derived rows, every evaluable
    cell of every input row that is left without sub-rows by the
    recursive filter (a row that never had any, or a parent whose
    sub-rows were all removed) has an entry in the match map under its
    composite key, whether or not the row is in the result. *)
Theorem recomputation_records_evaluated_cells config columnOptions rows p x cell :
  x ∈ allRows rows →
  remainingSubRows toString (filterValue p) columnOptions (fn toLowerCase config)
                   (includeHiddenColumns config) x = [] →
  cell ∈ Object_values (cellForId x) →
  evaluable columnOptions (includeHiddenColumns config) x cell = true →
  is_Some (tableCellMatches
             (deriveRows toString toLowerCase config columnOptions rows p).2
             !! rowColId cell).
Proof.
  intros Hx Hrem Hin Hev. unfold deriveRows.
  pose proof (getFilteredRows_records toString (filterValue p) columnOptions
                (fn toLowerCase config) (includeHiddenColumns config) rows ∅
                x cell Hx Hrem Hin Hev) as Hrec.
  by destruct (getFilteredRows _ _ _ _ _ rows ∅).
Qed.

(** A cell matches with hidden columns left out when it matches with
    them included and its column is displayed. *)
Lemma cellMatches_visible filterValue columnOptions fn row cell :
  cellMatches toString filterValue columnOptions fn false row cell =
  cellMatches toString filterValue columnOptions fn true row cell
  && negb (isHidden row cell).
Proof.
  unfold cellMatches, evaluable.
  destruct (isExcluded columnOptions cell), (isHidden row cell),
    (isDataBodyCell cell), (predicateAccepts _ _ _ _ cell); done.
Qed.

(** C8. Take a row that the recursive filter leaves without sub-rows,
    and whose matching cells, found with hidden columns included, are
    all on columns missing from its displayed cells, with at least one
    such cell. With [includeHiddenColumns] false the row is not in the
    result; with the flag true it is. *)
Theorem hidden_only_match filterValue columnOptions fn rows m m' row :
  row ∈ rows →
  remainingSubRows toString filterValue columnOptions fn false row = [] →
  (∃ cell, cell ∈ Object_values (cellForId row)
           ∧ cellMatches toString filterValue columnOptions fn true row cell = true) →
  (∀ cell, cell ∈ Object_values (cellForId row) →
           cellMatches toString filterValue columnOptions fn true row cell = true →
           isHidden row cell = true) →
  (mapped toString filterValue columnOptions fn false row
     ∉ (getFilteredRows toString filterValue columnOptions fn false rows m).1)
  ∧ (mapped toString filterValue columnOptions fn true row
     ∈ (getFilteredRows toString filterValue columnOptions fn true rows m').1).
Proof.
  intros Hrow Hrem Hsome Hhidden. split.
  - intros [Hk _]%elem_of_getFilteredRows.
    rewrite keeps_mapped, Hrem in Hk.
    apply rowMatches_true_iff in Hk as (cell & Hin & Hcell).
    rewrite cellMatches_visible in Hcell.
    apply andb_true_iff in Hcell as [Hcell Hvis].
    by rewrite (Hhidden cell Hin Hcell) in Hvis.
  - apply matchesWithin_kept; [done|]. left.
    by apply rowMatches_true_iff.
Qed.

(** C9. The [matches] prop of a body cell is true exactly when the
    filter value is not the empty string and the match map holds [true]
    under the cell's composite key; with the empty filter value it is
    false for every cell. *)
Theorem matches_prop p cell :
  (matches p cell = true ↔
   filterValue p ≠ "" ∧ tableCellMatches p !! rowColId cell = Some true)
  ∧ (filterValue p = "" → matches p cell = false).
Proof.
  unfold matches. split.
  - rewrite andb_true_iff, negb_true_iff.
    rewrite <- (not_true_iff_false (String.eqb _ _)), String.eqb_eq.
    destruct (tableCellMatches p !! rowColId cell) as [[]|]; simpl;
      split; intros [? ?]; split; congruence.
  - intros ->. reflexivity.
Qed.

End FilterPlugin.

(** *** Worked tables *)

Section FilterExamples.
Import Filter Samples.
Open Scope string_scope.

(** The example of the specification: with the filter value ["al"] the
    rows of Alice and Alan are kept, and their name cells match. *)
Lemma prefix_filter_example :
  let rows := [personRow "0" "Alice" "x" None; personRow "1" "Bob" "y" None;
               personRow "2" "Alan" "z" None] in
  let '(result, p) := recompute (configWithFilter "al") noColumnOptions rows in
  result = [personRow "0" "Alice" "x" None; personRow "2" "Alan" "z" None]
  ∧ matches p (dataCell "0" "name" "Alice") = true
  ∧ matches p (dataCell "1" "name" "Bob") = false
  ∧ matches p (dataCell "2" "name" "Alan") = true.
Proof. vm_compute. repeat split; reflexivity. Qed.

(** The empty filter value does not return every input: a row whose
    [name] column is excluded from filtering and whose [nick] column is
    hidden has no cell to evaluate, and is dropped. *)
Lemma empty_filter_drops_unevaluable_row :
  let rows := [personRow "0" "Alice" "x" None] in
  filterValue (recompute defaultConfig excludeName rows).2 = ""
  ∧ (recompute defaultConfig excludeName rows).1 = [].
Proof. vm_compute. split; reflexivity. Qed.

Lemma empty_filter_returns_rows_witness :
  let rows :=
    [personRow "0" "Zed" "z"
       (Some [personRow "0>0" "Alice" "x" None; personRow "0>1" "Bob" "y" None]);
     personRow "1" "Carol" "c" (Some [])] in
  (getFilteredRows (fun value : string => value) "" noColumnOptions
                   (textPrefixFilter asciiToLowerCase) false rows ∅).1 = rows.
Proof.
  intros rows.
  apply (empty_filter_returns_rows (fun value : string => value)
           asciiToLowerCase noColumnOptions false rows ∅).
  intros x Hx _. apply list_elem_of_In in Hx. simpl in Hx.
  destruct Hx as [<-|[<-|[<-|[<-|[]]]]];
    (eexists; split; [apply list_elem_of_here|reflexivity]).
Defined.

(** The cells of a parent that keeps a sub-row are not recorded: the
    name cell of the parent is evaluable (and would match), and after
    the recomputation the match map holds the two children's name
    cells only. *)
Lemma kept_parent_cells_not_recorded :
  let parent :=
    personRow "0" "Alan" "boss"
      (Some [personRow "0>0" "Alice" "x" None; personRow "0>1" "Bob" "y" None]) in
  let p := (recompute (configWithFilter "al") noColumnOptions [parent]).2 in
  dataCell "0" "name" "Alan" ∈ Object_values (cellForId parent)
  ∧ evaluable noColumnOptions false parent (dataCell "0" "name" "Alan") = true
  ∧ tableCellMatches p !! rowColId (dataCell "0" "name" "Alan") = None
  ∧ tableCellMatches p = {[ "0>0:name" := true; "0>1:name" := false ]}.
Proof.
  split; [apply list_elem_of_here|]. vm_compute. repeat split; reflexivity.
Qed.

Lemma recomputation_records_evaluated_cells_witness :
  let rows := [personRow "0" "Alice" "x" None; personRow "1" "Bob" "y" None] in
  let '(result, p) := recompute (configWithFilter "al") noColumnOptions rows in
  result = [personRow "0" "Alice" "x" None]
  ∧ is_Some (tableCellMatches p !! rowColId (dataCell "1" "name" "Bob")).
Proof.
  intros rows. split; [vm_compute; reflexivity|].
  apply (recomputation_records_evaluated_cells (fun value : string => value)
           asciiToLowerCase (configWithFilter "al") noColumnOptions rows
           (initialState (configWithFilter "al"))
           (personRow "1" "Bob" "y" None) (dataCell "1" "name" "Bob")).
  - apply list_elem_of_further, list_elem_of_here.
  - reflexivity.
  - apply list_elem_of_here.
  - reflexivity.
Defined.

Lemma matching_descendant_keeps_parent_witness :
  let alice := personRow "0>0" "Alice" "x" None in
  let parent := personRow "0" "Zed" "z" (Some [alice; personRow "0>1" "Bob" "y" None]) in
  let result :=
    (getFilteredRows (fun value : string => value) "al" noColumnOptions
                     (textPrefixFilter asciiToLowerCase) false [parent] ∅).1 in
  rowMatches (fun value : string => value) "al" noColumnOptions
             (textPrefixFilter asciiToLowerCase) false parent = false
  ∧ personRow "0" "Zed" "z" (Some [alice]) ∈ result.
Proof.
  intros alice parent result. split; [reflexivity|].
  apply (matching_descendant_keeps_parent (fun value : string => value) "al"
           noColumnOptions (textPrefixFilter asciiToLowerCase) false [parent] ∅ parent alice).
  - apply list_elem_of_here.
  - apply list_elem_of_here.
  - reflexivity.
Defined.

(** A row whose only matching cell is hidden is still in the result
    with [includeHiddenColumns] false when one of its sub-rows is
    kept: the parent's name does not match, its hidden nick does, and
    its sub-row matches by name. *)
Lemma hidden_only_match_parent_kept :
  let parent :=
    personRow "0" "Zed" "Alan" (Some [personRow "0>0" "Alice" "x" None]) in
  cellMatches (fun value : string => value) "al" noColumnOptions
              (textPrefixFilter asciiToLowerCase) true parent (dataCell "0" "name" "Zed") = false
  ∧ cellMatches (fun value : string => value) "al" noColumnOptions
                (textPrefixFilter asciiToLowerCase) true parent (dataCell "0" "nick" "Alan") = true
  ∧ isHidden parent (dataCell "0" "nick" "Alan") = true
  ∧ (recompute (configWithFilter "al") noColumnOptions [parent]).1 = [parent].
Proof. vm_compute. repeat split; reflexivity. Qed.

Lemma hidden_only_match_witness :
  let row := personRow "0" "Zed" "Alan" None in
  (recompute (configWithFilter "al") noColumnOptions [row]).1 = []
  ∧ row ∈ (recompute (configWithHidden "al") noColumnOptions [row]).1.
Proof.
  intros row.
  destruct (hidden_only_match (fun value : string => value) "al"
              noColumnOptions (textPrefixFilter asciiToLowerCase) [row] ∅ ∅ row) as [Hout Hin].
  - apply list_elem_of_here.
  - reflexivity.
  - exists (dataCell "0" "nick" "Alan"). split; [|reflexivity].
    apply list_elem_of_further, list_elem_of_here.
  - intros cell Hcell Hm. apply list_elem_of_In in Hcell. simpl in Hcell.
    destruct Hcell as [<-|[<-|[]]]; [discriminate Hm|reflexivity].
  - split; [vm_compute; reflexivity|exact Hin].
Defined.

Lemma matches_prop_witness :
  let cell := dataCell "0" "name" "Alice" in
  let p : PluginState (Value := string) :=
    {| filterValue := ""; preFilteredRows := []; filteredRows := [];
       tableCellMatches := {[ "0:name" := true ]} |} in
  tableCellMatches p !! rowColId cell = Some true ∧ matches p cell = false.
Proof.
  intros cell p. split; [reflexivity|].
  apply (proj2 (matches_prop p cell)). reflexivity.
Defined.

Lemma emptied_parent_judged_by_own_cells_witness :
  let bob := personRow "0>0" "Bob" "y" None in
  let alan := personRow "0" "Alan" "a" (Some [bob]) in
  let zed := personRow "1" "Zed" "z" (Some [bob]) in
  let result :=
    (getFilteredRows (fun value : string => value) "al" noColumnOptions
                     (textPrefixFilter asciiToLowerCase) false [alan; zed] ∅).1 in
  personRow "0" "Alan" "a" (Some []) ∈ result
  ∧ result = [personRow "0" "Alan" "a" (Some [])].
Proof.
  intros bob alan zed result. split; [|vm_compute; reflexivity].
  apply (emptied_parent_judged_by_own_cells (fun value : string => value) "al"
           noColumnOptions (textPrefixFilter asciiToLowerCase) false [alan; zed] ∅ alan).
  - apply list_elem_of_here.
  - reflexivity.
  - reflexivity.
Defined.

End FilterExamples.
(** ** Further properties of the table filter plugin *)

Section FilterResult.
Import Filter.
Context {Value : Type} (toString : Value → string).
Context (filterValue : string)
        (columnOptions : gmap string (TableFilterColumnOptions Value))
        (fn : TableFilterFn)
        (includeHiddenColumns : bool).
Implicit Types (row r x : BodyRow Value) (rows subs : list (BodyRow Value)).
Implicit Types (cell : BodyCell Value) (cs : list (BodyCell Value)).
Implicit Types (m : gmap string bool).

#[local] Abbreviation cellMatch :=
  (cellMatch toString filterValue columnOptions fn includeHiddenColumns).
#[local] Abbreviation rowCellMatches :=
  (rowCellMatches toString filterValue columnOptions fn includeHiddenColumns).
#[local] Abbreviation keepRow :=
  (keepRow toString filterValue columnOptions fn includeHiddenColumns).
#[local] Abbreviation filterRows :=
  (filterRows toString filterValue columnOptions fn includeHiddenColumns).
#[local] Abbreviation mapRow :=
  (mapRow toString filterValue columnOptions fn includeHiddenColumns).
#[local] Abbreviation mapRows :=
  (mapRows toString filterValue columnOptions fn includeHiddenColumns).
#[local] Abbreviation getFilteredRows :=
  (getFilteredRows toString filterValue columnOptions fn includeHiddenColumns).
#[local] Abbreviation evaluable := (evaluable columnOptions includeHiddenColumns).
#[local] Abbreviation predicateAccepts :=
  (predicateAccepts toString filterValue columnOptions fn).
#[local] Abbreviation rowMatches :=
  (rowMatches toString filterValue columnOptions fn includeHiddenColumns).
#[local] Abbreviation remainingSubRows :=
  (remainingSubRows toString filterValue columnOptions fn includeHiddenColumns).
#[local] Abbreviation keeps :=
  (keeps toString filterValue columnOptions fn includeHiddenColumns).
#[local] Abbreviation mapped :=
  (mapped toString filterValue columnOptions fn includeHiddenColumns).

Lemma remainingSubRows_node id cfi cs subs :
  remainingSubRows (mkBodyRow id cfi cs (Some subs)) = (getFilteredRows subs ∅).1.
Proof. reflexivity. Qed.

(** A row that has a sub-row left lies above a matching row. *)
Lemma remaining_has_matching_descendant row :
  remainingSubRows row ≠ [] →
  ∃ d, d ∈ descendants row ∧ rowMatches d = true.
Proof.
  induction row as [id cfi cs|id cfi cs subs IH] using BodyRow_tree_ind;
    intros Hrem; [done|].
  rewrite remainingSubRows_node in Hrem.
  destruct (getFilteredRows subs ∅).1 as [|y rest] eqn:Hres; [done|].
  assert (y ∈ (getFilteredRows subs ∅).1) as Hy
    by (rewrite Hres; apply list_elem_of_here).
  apply elem_of_getFilteredRows in Hy as (Hk & sub & Hsub & ->).
  rewrite keeps_mapped in Hk. rewrite Forall_forall in IH.
  destruct (remainingSubRows sub) as [|z zs] eqn:Hz.
  - exists sub. split; [|done].
    apply (descendants_sub _ subs sub); [done|done|by left].
  - destruct (IH sub Hsub) as (d & Hd & Hm); [by rewrite Hz|].
    exists d. split; [|done].
    apply (descendants_sub _ subs sub); [done|done|by right].
Qed.

(** A row in the result matches or has a matching row below it. *)
Lemma kept_matchesWithin rows m r :
  mapped r ∈ (getFilteredRows rows m).1 →
  rowMatches r = true ∨ ∃ d, d ∈ descendants r ∧ rowMatches d = true.
Proof.
  intros [Hk _]%elem_of_getFilteredRows. rewrite keeps_mapped in Hk.
  destruct (remainingSubRows r) as [|z zs] eqn:Hz; [by left|].
  right. apply remaining_has_matching_descendant. by rewrite Hz.
Qed.

(** X10. A row of the list handed to [getFilteredRows] is in the result
    (as itself, or as its clone with the filtered sub-rows) exactly when
    one of its own cells matches or a row below it, at any depth, has a
    matching cell. *)
Theorem row_retained_iff rows m r :
  r ∈ rows →
  mapped r ∈ (getFilteredRows rows m).1 ↔
  rowMatches r = true ∨ ∃ d, d ∈ descendants r ∧ rowMatches d = true.
Proof.
  intros Hr. split; [apply kept_matchesWithin|by apply matchesWithin_kept].
Qed.

(** *** Filtering twice *)

Lemma getCloned_getCloned row subs subs' :
  getCloned (getCloned row subs) subs' = getCloned row subs'.
Proof. by destruct row. Qed.

Lemma filter_keeps_fixed rows :
  Forall (fun r => mapped (mapped r) = mapped r) rows →
  filter (fun r => keeps r = true)
         (map mapped (filter (fun r => keeps r = true) (map mapped rows)))
  = filter (fun r => keeps r = true) (map mapped rows).
Proof.
  induction 1 as [|r rows Hr _ IH]; [done|].
  cbn [map]. rewrite filter_cons.
  destruct (decide (keeps (mapped r) = true)) as [Hk|Hk]; [|done].
  cbn [map]. rewrite Hr, filter_cons, decide_True by done. by rewrite IH.
Qed.

Lemma mapped_idempotent row : mapped (mapped row) = mapped row.
Proof.
  induction row as [id cfi cs|id cfi cs subs IH] using BodyRow_tree_ind.
  - by rewrite !mapped_leaf.
  - set (row := mkBodyRow id cfi cs (Some subs)).
    rewrite (mapped_node _ _ _ _ _ row subs eq_refl).
    rewrite (mapped_node _ _ _ _ _ (getCloned row (remainingSubRows row))
               (remainingSubRows row) eq_refl).
    rewrite getCloned_getCloned. f_equal.
    change (remainingSubRows (getCloned row (remainingSubRows row)))
      with (getFilteredRows (remainingSubRows row) ∅).1.
    unfold row. rewrite remainingSubRows_node, !getFilteredRows_fst.
    by apply filter_keeps_fixed.
Qed.

(** X11. Filtering is idempotent: filtering the rows that
    [getFilteredRows] returned, with the same arguments, returns them
    unchanged. *)
Theorem getFilteredRows_idempotent rows m m' :
  (getFilteredRows (getFilteredRows rows m).1 m').1 = (getFilteredRows rows m).1.
Proof.
  rewrite !getFilteredRows_fst. apply filter_keeps_fixed, Forall_forall.
  intros r _. apply mapped_idempotent.
Qed.

(** *** Where the rows of the result come from *)

Lemma mapped_rowId row : rowId (mapped row) = rowId row.
Proof.
  destruct (subRows row) as [subs|] eqn:Hs.
  - rewrite (mapped_node _ _ _ _ _ row subs Hs). by destruct row.
  - by rewrite (mapped_leaf _ _ _ _ _ row Hs).
Qed.

Lemma mapped_cells row : cells (mapped row) = cells row.
Proof.
  destruct (subRows row) as [subs|] eqn:Hs.
  - rewrite (mapped_node _ _ _ _ _ row subs Hs). by destruct row.
  - by rewrite (mapped_leaf _ _ _ _ _ row Hs).
Qed.

Lemma map_filter_mapped rows :
  filter (fun r => keeps r = true) (map mapped rows)
  = map mapped (filter (fun r => keeps (mapped r) = true) rows).
Proof.
  induction rows as [|r rows IH]; [done|].
  cbn [map]. rewrite !filter_cons.
  destruct (decide (keeps (mapped r) = true)); cbn [map]; by rewrite IH.
Qed.

(** X12. The result is an ordered selection of the input list: there is
    a sub-sequence of the input rows, in their order, of which the
    result holds, row by row, the same id, the same cells and the same
    displayed cells, with the filtered sub-rows; a row without a
    sub-row field comes back as the very same row. *)
Theorem result_is_ordered_selection rows m :
  ∃ selected,
    selected `sublist_of` rows
    ∧ Forall2 (fun x r =>
                 rowId x = rowId r ∧ cellForId x = cellForId r
                 ∧ cells x = cells r
                 ∧ default [] (subRows x) = remainingSubRows r
                 ∧ (subRows r = None → x = r))
              (getFilteredRows rows m).1 selected.
Proof.
  exists (filter (fun r => keeps (mapped r) = true) rows).
  split; [apply sublist_filter|].
  rewrite getFilteredRows_fst, map_filter_mapped.
  induction (filter (fun r => keeps (mapped r) = true) rows) as [|r rs IH];
    cbn [map]; constructor; [|done].
  split; [apply mapped_rowId|]. split; [apply mapped_cellForId|].
  split; [apply mapped_cells|]. split; [apply mapped_subRows|apply mapped_leaf].
Qed.

Lemma result_rows_from_input_Forall rows m :
  Forall (fun r => ∀ x, x ∈ descendants (mapped r) →
                        ∃ r0, r0 ∈ descendants r ∧ x = mapped r0) rows →
  ∀ x, x ∈ allRows (getFilteredRows rows m).1 →
       ∃ r0, r0 ∈ allRows rows ∧ x = mapped r0.
Proof.
  intros Hall x Hx. rewrite Forall_forall in Hall.
  apply elem_of_allRows in Hx as (y & Hy & Hx).
  apply elem_of_getFilteredRows in Hy as (_ & r & Hr & ->).
  destruct Hx as [->|Hx].
  - exists r. split; [|done]. apply elem_of_allRows. exists r. by split; [|left].
  - destruct (Hall r Hr x Hx) as (r0 & Hr0 & ->).
    exists r0. split; [|done]. apply elem_of_allRows. exists r. by split; [|right].
Qed.

Lemma mapped_descendants_from_input row :
  ∀ x, x ∈ descendants (mapped row) →
       ∃ r0, r0 ∈ descendants row ∧ x = mapped r0.
Proof.
  induction row as [id cfi cs|id cfi cs subs IH] using BodyRow_tree_ind;
    intros x Hx; rewrite descendants_mapped in Hx.
  - rewrite remainingSubRows_leaf in Hx by done. by apply elem_of_nil in Hx.
  - rewrite remainingSubRows_node in Hx.
    destruct (result_rows_from_input_Forall subs ∅ IH x Hx) as (r0 & Hr0 & ->).
    exists r0. split; [|done]. by rewrite descendants_unfold.
Qed.

(** X13. The filter invents no row: every row of the result, at any
    depth, is an input row (of some depth) with the same id, the same
    cells and the same displayed cells, and with the sub-rows that the
    recursive filter left it. *)
Theorem result_rows_from_input rows m x :
  x ∈ allRows (getFilteredRows rows m).1 →
  ∃ r0, r0 ∈ allRows rows
        ∧ rowId x = rowId r0 ∧ cellForId x = cellForId r0 ∧ cells x = cells r0
        ∧ default [] (subRows x) = remainingSubRows r0.
Proof.
  intros Hx.
  destruct (result_rows_from_input_Forall rows m) with (x := x)
    as (r0 & Hr0 & ->); [|done|].
  { apply Forall_forall. intros r _. apply mapped_descendants_from_input. }
  exists r0. split; [done|]. split; [apply mapped_rowId|].
  split; [apply mapped_cellForId|]. split; [apply mapped_cells|apply mapped_subRows].
Qed.

(** *** Where the entries of the store come from *)

(** Among the rows [xs], a row left without sub-rows has an evaluable
    cell with key [k] on which the predicate's verdict is [b]. *)
#[local] Abbreviation sourceIn xs k b :=
  (∃ x cell, x ∈ xs ∧ remainingSubRows x = []
             ∧ cell ∈ Object_values (cellForId x) ∧ evaluable x cell = true
             ∧ rowColId cell = k ∧ predicateAccepts cell = b).

Lemma cellMatch_source row cell m k b :
  (cellMatch row cell m).2 !! k = Some b →
  m !! k = Some b
  ∨ (evaluable row cell = true ∧ rowColId cell = k ∧ predicateAccepts cell = b).
Proof.
  unfold Filter.cellMatch, Filter.evaluable.
  destruct (isExcluded columnOptions cell); [by left|].
  destruct (isHidden row cell), includeHiddenColumns; simpl; try (by left);
    (destruct cell as [i key v|i key]; [|by left]); simpl;
    rewrite lookup_insert; (destruct (decide (key = k)) as [->|]; [|by left]);
    intros [= <-]; by right.
Qed.

Lemma rowCellMatches_source row cs m k b :
  (rowCellMatches row cs m).2 !! k = Some b →
  m !! k = Some b
  ∨ ∃ cell, cell ∈ cs ∧ evaluable row cell = true
            ∧ rowColId cell = k ∧ predicateAccepts cell = b.
Proof.
  revert m. induction cs as [|c cs IH]; intros m; simpl; [by left|].
  pose proof (cellMatch_source row c m k b) as Hc.
  destruct (cellMatch row c m) as [b0 m1]. specialize (IH m1).
  destruct (rowCellMatches row cs m1) as [bs m2]. simpl in *.
  intros Hk. destruct (IH Hk) as [Hm1|(cell & Hin & Hcell)].
  - destruct (Hc Hm1) as [?|Hcell]; [by left|right].
    exists c. split; [apply list_elem_of_here|done].
  - right. exists cell. split; [by apply list_elem_of_further|done].
Qed.

Lemma keepRow_source row m k b :
  (keepRow row m).2 !! k = Some b →
  m !! k = Some b
  ∨ (default [] (subRows row) = []
     ∧ ∃ cell, cell ∈ Object_values (cellForId row) ∧ evaluable row cell = true
               ∧ rowColId cell = k ∧ predicateAccepts cell = b).
Proof.
  unfold Filter.keepRow.
  destruct (default [] (subRows row)) as [|z zs]; simpl; [|by left].
  pose proof (rowCellMatches_source row (Object_values (cellForId row)) m k b) as Hc.
  destruct (rowCellMatches row (Object_values (cellForId row)) m) as [bs m'].
  simpl in *. intros Hk. destruct (Hc Hk) as [?|?]; [by left|by right].
Qed.

Lemma filterRows_source rows m k b :
  (filterRows rows m).2 !! k = Some b →
  m !! k = Some b
  ∨ ∃ x cell, x ∈ rows ∧ default [] (subRows x) = []
              ∧ cell ∈ Object_values (cellForId x) ∧ evaluable x cell = true
              ∧ rowColId cell = k ∧ predicateAccepts cell = b.
Proof.
  revert m. induction rows as [|r rows IH]; intros m; simpl; [by left|].
  pose proof (keepRow_source r m k b) as Hr.
  destruct (keepRow r m) as [keep m1]. specialize (IH m1).
  destruct (filterRows rows m1) as [kept m2]. simpl in *.
  intros Hk. destruct (IH Hk) as [Hm1|(x & cell & Hx & Hrest)].
  - destruct (Hr Hm1) as [?|(Hs & cell & Hrest)]; [by left|right].
    exists r, cell. split; [apply list_elem_of_here|done].
  - right. exists x, cell. split; [by apply list_elem_of_further|done].
Qed.

Lemma mapRows_source_Forall rows k b :
  Forall (fun r => ∀ m, (mapRow r m).2 !! k = Some b →
                        m !! k = Some b ∨ sourceIn (descendants r) k b) rows →
  ∀ m, (mapRows rows m).2 !! k = Some b →
       m !! k = Some b ∨ sourceIn (allRows rows) k b.
Proof.
  induction 1 as [|r rows Hr _ IH]; intros m; [by left|].
  cbn [Filter.mapRows].
  specialize (Hr m). destruct (mapRow r m) as [r' ma]. specialize (IH ma).
  destruct (mapRows rows ma) as [rest' mb]. cbn [snd] in *.
  intros Hk. destruct (IH Hk) as [Hma|(x & cell & Hx & Hrest)].
  - destruct (Hr Hma) as [?|(x & cell & Hx & Hrest)]; [by left|right].
    exists x, cell. split; [|done].
    apply elem_of_allRows. exists r. split; [apply list_elem_of_here|by right].
  - right. exists x, cell. split; [|done].
    apply elem_of_allRows in Hx as (y & Hy & Hx). apply elem_of_allRows.
    exists y. split; [by apply list_elem_of_further|done].
Qed.

Lemma getFilteredRows_source_Forall rows k b :
  Forall (fun r => ∀ m, (mapRow r m).2 !! k = Some b →
                        m !! k = Some b ∨ sourceIn (descendants r) k b) rows →
  ∀ m, (getFilteredRows rows m).2 !! k = Some b →
       m !! k = Some b ∨ sourceIn (allRows rows) k b.
Proof.
  intros Hall m. unfold Filter.getFilteredRows.
  pose proof (mapRows_source_Forall rows k b Hall m) as Hmap.
  pose proof (mapRows_fst_Forall toString filterValue columnOptions fn
                includeHiddenColumns rows m) as Hfst.
  destruct (mapRows rows m) as [mp m1]. simpl in Hmap, Hfst.
  rewrite Hfst by (apply Forall_forall; intros; apply mapRow_fst).
  intros Hk. apply filterRows_source in Hk as [Hm1|(x & cell & Hx & Hs & Hin & Hev & Hrest)];
    [by apply Hmap|right].
  apply list_elem_of_In, in_map_iff in Hx as (r & <- & Hr%list_elem_of_In).
  exists r, cell. split.
  { apply elem_of_allRows. exists r. by split; [|left]. }
  rewrite mapped_subRows in Hs. rewrite mapped_cellForId in Hin.
  rewrite evaluable_mapped in Hev. done.
Qed.

Lemma mapRow_source row k b :
  ∀ m, (mapRow row m).2 !! k = Some b →
       m !! k = Some b ∨ sourceIn (descendants row) k b.
Proof.
  induction row as [id cfi cs|id cfi cs subs IH] using BodyRow_tree_ind;
    intros m; [by left|].
  rewrite mapRow_unfold. cbn [subRows].
  pose proof (getFilteredRows_source_Forall subs k b IH m) as Hg.
  destruct (getFilteredRows subs m) as [f m']. cbn [snd] in *.
  intros Hk. destruct (Hg Hk) as [?|Hsrc]; [by left|right].
  rewrite descendants_unfold. exact Hsrc.
Qed.

(** Every entry that [getFilteredRows] adds to the store is the
    predicate's verdict on an evaluable cell of a row that is left
    without sub-rows. *)
Lemma getFilteredRows_source rows m k b :
  (getFilteredRows rows m).2 !! k = Some b →
  m !! k = Some b ∨ sourceIn (allRows rows) k b.
Proof.
  apply getFilteredRows_source_Forall, Forall_forall.
  intros r _. apply mapRow_source.
Qed.

End FilterResult.

Section FilterRecompute.
Import Filter.
Context {Value : Type} (toString : Value → string)
        (toLowerCase : string → string).
Implicit Types (row x : BodyRow Value) (rows : list (BodyRow Value)).
Implicit Types (cell : BodyCell Value) (p : PluginState (Value := Value)).

(** X14. After a recomputation of the derived rows the match map holds
    nothing else than verdicts of the predicate: every entry is stored
    under the composite key of an evaluable cell of an input row that
    is left without sub-rows, and its value is the predicate's verdict
    on such a cell. No entry of an earlier recomputation survives. *)
Theorem recorded_entries_are_verdicts config columnOptions rows p k b :
  tableCellMatches (deriveRows toString toLowerCase config columnOptions rows p).2 !! k
    = Some b →
  ∃ x cell,
    x ∈ allRows rows
    ∧ remainingSubRows toString (filterValue p) columnOptions (fn toLowerCase config)
                       (includeHiddenColumns config) x = []
    ∧ cell ∈ Object_values (cellForId x)
    ∧ evaluable columnOptions (includeHiddenColumns config) x cell = true
    ∧ rowColId cell = k
    ∧ predicateAccepts toString (filterValue p) columnOptions (fn toLowerCase config) cell = b.
Proof.
  unfold deriveRows.
  pose proof (getFilteredRows_source toString (filterValue p) columnOptions
                (fn toLowerCase config) (includeHiddenColumns config) rows ∅ k b) as Hsrc.
  destruct (getFilteredRows _ _ _ _ _ rows ∅) as [out m]. cbn [snd tableCellMatches] in *.
  intros Hk. destruct (Hsrc Hk) as [Hempty|Hfound]; [|done].
  by rewrite lookup_empty in Hempty.
Qed.

(** X15. When the composite keys of the cells of the input rows are
    unique, after a recomputation the [matches] prop of an evaluable
    cell of a row that is left without sub-rows is true exactly when
    the filter value is not empty and the predicate accepts the cell. *)
Theorem highlight_is_verdict config columnOptions rows p x cell :
  (∀ x1 x2 c1 c2,
     x1 ∈ allRows rows → x2 ∈ allRows rows →
     c1 ∈ Object_values (cellForId x1) → c2 ∈ Object_values (cellForId x2) →
     rowColId c1 = rowColId c2 → c1 = c2) →
  x ∈ allRows rows →
  remainingSubRows toString (filterValue p) columnOptions (fn toLowerCase config)
                   (includeHiddenColumns config) x = [] →
  cell ∈ Object_values (cellForId x) →
  evaluable columnOptions (includeHiddenColumns config) x cell = true →
  matches (deriveRows toString toLowerCase config columnOptions rows p).2 cell
  = negb (String.eqb (filterValue p) "")
    && predicateAccepts toString (filterValue p) columnOptions (fn toLowerCase config) cell.
Proof.
  intros Huniq Hx Hrem Hin Hev.
  pose proof (getFilteredRows_records toString (filterValue p) columnOptions
                (fn toLowerCase config) (includeHiddenColumns config) rows ∅ x cell
                Hx Hrem Hin Hev) as [b Hb].
  pose proof (getFilteredRows_source toString (filterValue p) columnOptions
                (fn toLowerCase config) (includeHiddenColumns config) rows ∅
                (rowColId cell) b) as Hsrc.
  unfold matches, deriveRows in *.
  destruct (getFilteredRows _ _ _ _ _ rows ∅) as [out m].
  cbn [snd tableCellMatches filterValue] in *. rewrite Hb. cbn [default].
  destruct (Hsrc Hb) as [Hempty|(x' & cell' & Hx' & _ & Hin' & _ & Hkey & <-)];
    [by rewrite lookup_empty in Hempty|].
  by rewrite (Huniq x' x cell' cell Hx' Hx Hin' Hin Hkey).
Qed.

Lemma rowMatches_with_hidden filterValue columnOptions fn row :
  rowMatches toString filterValue columnOptions fn false row = true →
  rowMatches toString filterValue columnOptions fn true row = true.
Proof.
  rewrite !rowMatches_true_iff. intros (cell & Hin & Hcell).
  exists cell. split; [done|].
  rewrite cellMatches_visible in Hcell. by apply andb_true_iff in Hcell as [? _].
Qed.

(** X16. Including the hidden columns never removes a row: a row of
    the input list that is in the result with [includeHiddenColumns]
    false is in the result with the flag true. *)
Theorem includeHiddenColumns_keeps_more filterValue columnOptions fn rows m m' r :
  r ∈ rows →
  mapped toString filterValue columnOptions fn false r
    ∈ (getFilteredRows toString filterValue columnOptions fn false rows m).1 →
  mapped toString filterValue columnOptions fn true r
    ∈ (getFilteredRows toString filterValue columnOptions fn true rows m').1.
Proof.
  intros Hr Hin. apply kept_matchesWithin in Hin.
  apply matchesWithin_kept; [done|].
  destruct Hin as [Hm|(d & Hd & Hm)].
  - left. by apply rowMatches_with_hidden.
  - right. exists d. split; [done|]. by apply rowMatches_with_hidden.
Qed.

End FilterRecompute.

Section FilterMoreExamples.
Import Filter Samples.
Open Scope string_scope.

Lemma row_retained_iff_witness :
  let bob := personRow "0>0" "Bob" "al" None in
  let zed := personRow "0" "Zed" "z" (Some [bob]) in
  rowMatches (fun value : string => value) "al" noColumnOptions
             (textPrefixFilter asciiToLowerCase) true zed = true
  ∨ ∃ d, d ∈ descendants zed
         ∧ rowMatches (fun value : string => value) "al" noColumnOptions
                      (textPrefixFilter asciiToLowerCase) true d = true.
Proof.
  intros bob zed.
  apply (proj1 (row_retained_iff (fun value : string => value) "al"
                  noColumnOptions (textPrefixFilter asciiToLowerCase) true
                  [zed] ∅ zed (list_elem_of_here _ _))).
  vm_compute. apply list_elem_of_here.
Defined.

Lemma result_rows_from_input_witness :
  let alice := personRow "0>0" "Alice" "x" None in
  let zed := personRow "0" "Zed" "z" (Some [alice; personRow "0>1" "Bob" "y" None]) in
  ∃ r0, r0 ∈ allRows [zed]
        ∧ rowId alice = rowId r0 ∧ cellForId alice = cellForId r0
        ∧ cells alice = cells r0
        ∧ default [] (subRows alice)
          = remainingSubRows (fun value : string => value) "al" noColumnOptions
                             (textPrefixFilter asciiToLowerCase) false r0.
Proof.
  intros alice zed.
  apply (result_rows_from_input (fun value : string => value) "al"
           noColumnOptions (textPrefixFilter asciiToLowerCase) false [zed] ∅ alice).
  vm_compute. apply list_elem_of_further, list_elem_of_here.
Defined.

Lemma recorded_entries_are_verdicts_witness :
  let rows := [personRow "0" "Alice" "x" None; personRow "1" "Bob" "y" None] in
  ∃ x cell,
    x ∈ allRows rows
    ∧ remainingSubRows (fun value : string => value)
        (filterValue (initialState (Value := string) (configWithFilter "al")))
        noColumnOptions (fn asciiToLowerCase (configWithFilter "al"))
        (includeHiddenColumns (configWithFilter "al")) x = []
    ∧ cell ∈ Object_values (cellForId x)
    ∧ evaluable noColumnOptions (includeHiddenColumns (configWithFilter "al"))
                x cell = true
    ∧ rowColId cell = "1:name"
    ∧ predicateAccepts (fun value : string => value)
        (filterValue (initialState (Value := string) (configWithFilter "al")))
        noColumnOptions (fn asciiToLowerCase (configWithFilter "al")) cell = false.
Proof.
  intros rows.
  apply (recorded_entries_are_verdicts (fun value : string => value)
           asciiToLowerCase (configWithFilter "al") noColumnOptions rows
           (initialState (configWithFilter "al")) "1:name" false).
  vm_compute. reflexivity.
Defined.

Lemma highlight_is_verdict_witness :
  let alice := personRow "0" "Alice" "x" None in
  let rows := [alice; personRow "1" "Bob" "y" None] in
  matches (recompute (configWithFilter "al") noColumnOptions rows).2
          (dataCell "0" "name" "Alice") = true.
Proof.
  intros alice rows. unfold recompute.
  rewrite (highlight_is_verdict (fun value : string => value)
             asciiToLowerCase (configWithFilter "al") noColumnOptions rows
             (initialState (configWithFilter "al")) alice
             (dataCell "0" "name" "Alice")).
  - reflexivity.
  - intros x1 x2 c1 c2 H1 H2 H3 H4 Hk.
    apply list_elem_of_In in H1, H2. simpl in H1, H2.
    destruct H1 as [<-|[<-|[]]], H2 as [<-|[<-|[]]];
      apply list_elem_of_In in H3, H4; simpl in H3, H4;
      destruct H3 as [<-|[<-|[]]], H4 as [<-|[<-|[]]];
      first [reflexivity | vm_compute in Hk; discriminate Hk].
  - apply list_elem_of_here.
  - reflexivity.
  - apply list_elem_of_here.
  - reflexivity.
Defined.

Lemma includeHiddenColumns_keeps_more_witness :
  let alice := personRow "0" "Alice" "x" None in
  mapped (fun value : string => value) "al" noColumnOptions (textPrefixFilter asciiToLowerCase) true alice
  ∈ (getFilteredRows (fun value : string => value) "al" noColumnOptions
                     (textPrefixFilter asciiToLowerCase) true
                     [alice; personRow "1" "Bob" "al" None] ∅).1.
Proof.
  intros alice.
  apply (includeHiddenColumns_keeps_more (fun value : string => value) "al"
           noColumnOptions (textPrefixFilter asciiToLowerCase)
           [alice; personRow "1" "Bob" "al" None] ∅ ∅ alice).
  - apply list_elem_of_here.
  - vm_compute. apply list_elem_of_here.
Defined.

End FilterMoreExamples.
